(** * nala/fetch.py: the mirror-latency probing core

    A shallow embedding of the checksum ([chk]), the echo prober
    ([ping]), the per-mirror worker ([net_select]) and the ranking tail
    of [fetch], followed by the properties of these functions.

    Conventions
    - a Python [bytes] value is a [list byte];
    - Python integers are [Z]; [x << 8], [x >> 16], [x & m] and [~x] are
      [Z.shiftl], [Z.shiftr], [Z.land] and [Z.lnot];
    - a [str] is a [string]; comparison of strings is by code point;
    - the clock is an integer number of microseconds. *)

From Stdlib Require Import ZArith List Lia Bool.
From Stdlib.Strings Require Import Byte Ascii String.
From Stdlib Require Import DecimalString.
From Stdlib Require Import Sorted Permutation.
From Equations Require Import Equations.
Import ListNotations.

Local Open Scope Z_scope.

Definition bytes := list byte.

(** The integer value of a byte, as Python yields it when iterating over
    a [bytes] object. *)
Definition byte_val (b : byte) : Z := Z.of_N (Byte.to_N b).

(** The byte whose value is [z mod 256]. *)
Definition byte_of_Z (z : Z) : byte :=
  match Byte.of_N (Z.to_N (z mod 256)) with
  | Some b => b
  | None => x00
  end.

(** ** struct.pack *)

(** [struct.pack('<H', v)] for [v] already in range: low byte first. *)
Definition pack_le_H (v : Z) : bytes :=
  [byte_of_Z (Z.land v 255); byte_of_Z (Z.shiftr v 8)].

(** One big-endian unsigned short. *)
Definition pack_be_H (v : Z) : bytes :=
  [byte_of_Z (Z.shiftr v 8); byte_of_Z (Z.land v 255)].

Definition in_H_range (v : Z) : bool := (0 <=? v) && (v <? 65536).

(** [struct.pack('!HH', a, b)]; [None] stands for [struct.error], which
    Python raises when an argument is outside 0..65535. *)
Definition pack_be_HH (a b : Z) : option bytes :=
  if in_H_range a && in_H_range b
  then Some (pack_be_H a ++ pack_be_H b)
  else None.

(** ** chk *)

(** [enumerate(data)], counting from [i]. *)
Fixpoint enumerate_from {A : Type} (i : Z) (l : list A) : list (Z * A) :=
  match l with
  | [] => []
  | x :: t => (i, x) :: enumerate_from (i + 1) t
  end.

Definition enumerate {A : Type} (l : list A) : list (Z * A) :=
  enumerate_from 0 l.

(** The generator's element: [x << 8 if i % 2 else x]. *)
Definition chk_term (p : Z * byte) : Z :=
  let (i, x) := p in
  if (i mod 2 =? 0) then byte_val x else Z.shiftl (byte_val x) 8.

(** Python's [sum]: start from 0 and add from the left. *)
Definition py_sum (l : list Z) : Z := fold_left Z.add l 0.

(** One folding step, [(x >> 16) + (x & 0xFFFF)]. *)
Definition fold16 (x : Z) : Z := Z.shiftr x 16 + Z.land x 65535.

(** The value that [chk] packs: [~x & 0xFFFF] after the two folds. *)
Definition chk_value (data : bytes) : Z :=
  let x := Z.land (py_sum (map chk_term (enumerate data))) 4294967295 in
  let x := fold16 x in
  let x := fold16 x in
  Z.land (Z.lnot x) 65535.

Definition chk (data : bytes) : bytes := pack_le_H (chk_value data).

(** ** The Internet checksum as the specification words it

    Big-endian 16-bit words, an odd final byte being the high byte of a
    word whose low byte is zero; a 32-bit accumulator; carries folded
    until the value fits in 16 bits; the complement, masked to 16 bits,
    written in network order. *)

Fixpoint be_words (data : bytes) : list Z :=
  match data with
  | [] => []
  | [b] => [256 * byte_val b]
  | b0 :: b1 :: t => (256 * byte_val b0 + byte_val b1) :: be_words t
  end.

Fixpoint sum_Z (l : list Z) : Z :=
  match l with
  | [] => 0
  | x :: t => x + sum_Z t
  end.

Equations? fold_carries (x : Z) : Z by wf (Z.to_nat x) lt :=
  fold_carries x with Z_lt_dec x 65536 => {
    | left _ => x
    | right _ => fold_carries (fold16 x) }.
Proof.
  unfold fold16.
  rewrite Z.shiftr_div_pow2 by lia.
  change 65535 with (Z.ones 16). rewrite Z.land_ones by lia.
  change (2 ^ 16) with 65536.
  pose proof (Z.div_mod x 65536 ltac:(lia)).
  pose proof (Z.mod_pos_bound x 65536 ltac:(lia)).
  assert (0 < x / 65536) by (apply Z.div_str_pos; lia).
  lia.
Qed.

(** The checksum with a 32-bit accumulator. *)
Definition rfc1071_value32 (data : bytes) : Z :=
  let s := (sum_Z (be_words data)) mod 4294967296 in
  Z.land (Z.lnot (fold_carries s)) 65535.

Definition rfc1071_chk32 (data : bytes) : bytes :=
  pack_be_H (rfc1071_value32 data).

(** The same with an accumulator that never overflows (the end-around
    carry of one's-complement addition loses nothing). *)
Definition rfc1071_value (data : bytes) : Z :=
  Z.land (Z.lnot (fold_carries (sum_Z (be_words data)))) 65535.

Definition rfc1071_chk (data : bytes) : bytes :=
  pack_be_H (rfc1071_value data).

(** ** Exceptions and results *)

Inductive exn : Type :=
| PermissionError          (* an OSError: raw socket without privilege *)
| gaierror                 (* socket.gaierror, an OSError *)
| ConnectionRefusedError   (* an OSError *)
| OSError                  (* any other OSError *)
| NameError                (* with its subclass UnboundLocalError *)
| ValueError
| struct_error.

Inductive result (A : Type) : Type :=
| Ok (a : A)
| Raise (e : exn).

Arguments Ok {A} a.
Arguments Raise {A} e.

(** [isinstance(e, OSError)]. *)
Definition is_OSError (e : exn) : bool :=
  match e with
  | PermissionError | gaierror | ConnectionRefusedError | OSError => true
  | NameError | ValueError | struct_error => false
  end.

Definition is_gaierror (e : exn) : bool :=
  match e with gaierror => true | _ => false end.

Definition is_ConnectionRefusedError (e : exn) : bool :=
  match e with ConnectionRefusedError => true | _ => false end.

(** ** The network seen by one probe

    What the operating system answers to the calls of [ping]: whether
    creating, connecting and sending on the raw socket fail, what the
    random source and the clock return, and the datagrams delivered to
    the socket, in order, each with its arrival time. [recv_cost] is the
    time that passes between a return of [select] and the next reading
    of the clock. *)
Record net_env : Type := {
  socket_error : option exn;
  connect_error : string -> option exn;
  sendall_error : option exn;
  rand : Z;
  start_time : Z;
  recv_cost : Z;
  inbox : list (Z * bytes)
}.

(** [random.randrange(0, 65536)]. *)
Definition randrange16 (env : net_env) : Z := rand env mod 65536.

(** ** ping *)

Fixpoint bytes_eqb (a b : bytes) : bool :=
  match a, b with
  | [], [] => true
  | x :: a', y :: b' => Byte.eqb x y && bytes_eqb a' b'
  | _, _ => false
  end.

Definition len (data : bytes) : Z := Z.of_nat (List.length data).

(** [conn.recv(65536)] on a datagram socket: at most 65536 bytes of the
    next datagram. *)
Definition recv (d : bytes) : bytes := firstn (N.to_nat 65536) d.

(** [struct.unpack_from('!xxH', data)[0]]: the big-endian short at
    offsets 2 and 3, the total length of the IP header. It is only
    evaluated on data of 20 bytes or more. *)
Definition declared_length (data : bytes) : Z :=
  256 * byte_val (nth 2 data x00) + byte_val (nth 3 data x00).

(** [len(data) < 20 or len(data) < struct.unpack_from('!xxH', data)[0]] *)
Definition too_short (data : bytes) : bool :=
  (len data <? 20) || (len data <? declared_length data).

(** The packet sent: [b'\x08\0' + chk(b'\x08\0\0\0' + payload) + payload]. *)
Definition echo_request (payload : bytes) : bytes :=
  [x08; x00] ++ chk ([x08; x00; x00; x00] ++ payload) ++ payload.

(** The reply expected: [b'\0\0' + chk(b'\0\0\0\0' + payload) + payload]. *)
Definition echo_reply (payload : bytes) : bytes :=
  [x00; x00] ++ chk ([x00; x00; x00; x00] ++ payload) ++ payload.

(** How one run of the receive loop ended: the value returned (elapsed
    time, or [None]), the clock when it returned, and the time spent
    blocked in [select]. *)
Record probe : Type := {
  answer : option Z;
  finished : Z;
  waited : Z
}.

(** The [while select.select(...)[0]] loop. [now] is the clock when the
    condition is evaluated. [select] with time-out [t] returns the
    socket as soon as the next datagram has arrived, if that is no later
    than [now + t], and the empty list at [now + t] otherwise. *)
Fixpoint ping_loop (cost start timeout : Z) (payload : bytes)
    (now blocked : Z) (queue : list (Z * bytes)) : probe :=
  let t := Z.max 0 (start + timeout - now) in
  match queue with
  | [] => {| answer := None; finished := now + t; waited := blocked + t |}
  | (arrival, d) :: rest =>
      if arrival <=? now + t then
        let woke := Z.max now arrival in
        let blocked := blocked + (woke - now) in
        let data := recv d in
        if too_short data then
          ping_loop cost start timeout payload (woke + cost) blocked rest
        else if bytes_eqb (skipn 20 data) (echo_reply payload) then
          {| answer := Some (woke + cost - start);
             finished := woke + cost;
             waited := blocked |}
        else
          ping_loop cost start timeout payload (woke + cost) blocked rest
      else {| answer := None; finished := now + t; waited := blocked + t |}
  end.

(** [ping], with the probe's timing kept. *)
Definition ping_run (env : net_env) (addr : string) (timeout number : Z)
    (data : bytes) : result probe :=
  match socket_error env with
  | Some e => Raise e
  | None =>
      match pack_be_HH (randrange16 env) number with
      | None => Raise struct_error
      | Some header =>
          let payload := header ++ data in
          match connect_error env addr with
          | Some e => Raise e
          | None =>
              match sendall_error env with
              | Some e => Raise e
              | None =>
                  let start := start_time env in
                  Ok (ping_loop (recv_cost env) start timeout payload
                        start 0 (inbox env))
              end
          end
      end
  end.

(** [ping(addr, timeout=2, number=1, data=b'')]: the elapsed time, or
    [None] when the loop ends without a match. *)
Definition ping (env : net_env) (addr : string) (timeout number : Z)
    (data : bytes) : result (option Z) :=
  match ping_run env addr timeout number data with
  | Ok p => Ok (answer p)
  | Raise e => Raise e
  end.

(** Two seconds, the default [timeout]. *)
Definition default_timeout : Z := 2000000.

(** ** The regular expression of net_select *)

Local Open Scope string_scope.

(** The class [[A-Za-z_0-9.-]]. *)
Definition is_domain_char (c : ascii) : bool :=
  let n := N_of_ascii c in
  (((65 <=? n) && (n <=? 90)) || ((97 <=? n) && (n <=? 122)) || (n =? 95)
   || ((48 <=? n) && (n <=? 57)) || (n =? 46) || (n =? 45))%N.

(** The longest prefix made of characters of the class (the greedy [+]). *)
Fixpoint take_domain (s : string) : string :=
  match s with
  | EmptyString => EmptyString
  | String c t => if is_domain_char c then String c (take_domain t) else EmptyString
  end.

Fixpoint strip_prefix (p s : string) : option string :=
  match p, s with
  | EmptyString, _ => Some s
  | String a p', String b s' => if Ascii.eqb a b then strip_prefix p' s' else None
  | String _ _, EmptyString => None
  end.

Definition group1 (rest : string) : option string :=
  match take_domain rest with
  | EmptyString => None
  | d => Some d
  end.

(** A match of ['https?://([A-Za-z_0-9.-]+).*'] that starts at the head
    of [s]: its group 1. *)
Definition match_here (s : string) : option string :=
  match strip_prefix "https://" s with
  | Some rest => group1 rest
  | None =>
      match strip_prefix "http://" s with
      | Some rest => group1 rest
      | None => None
      end
  end.

(** [re.search(pattern, host)]: the leftmost match; [None] when there is
    none. The value is what [regex.group(1)] returns. *)
Fixpoint re_search (host : string) : option string :=
  match match_here host with
  | Some d => Some d
  | None =>
      match host with
      | EmptyString => None
      | String _ t => re_search t
      end
  end.

(** ** net_select *)

(** [str(n)] for an integer. *)
Definition str (n : Z) : string := NilZero.string_of_int (Z.to_int n).

(** [int(res*1000)] for an elapsed time in microseconds. The clock of
    the model counts whole microseconds and the division is exact; the
    rounding of the floating-point subtraction and product, which can
    move the result by one at a millisecond boundary, is not modelled. *)
Definition millis (elapsed : Z) : Z := Z.quot elapsed 1000.

(** The two padding statements. The second one is the comparison
    [res == '00'+res], whose value is dropped. *)
Definition pad (res : string) : string :=
  let res := if Nat.eqb (String.length res) 2 then "0" ++ res else res in
  let res :=
    if Nat.eqb (String.length res) 1
    then (let _ := String.eqb res ("00" ++ res) in res)
    else res in
  res.

(** [f'{res} {host}'] *)
Definition score_entry (ms : Z) (host : string) : string :=
  pad (str ms) ++ " " ++ host.

Inductive log_line : Type :=
| error_line (e : exn) (domain : string)   (* print(f'{e}: {domain}') *)
| url_line (host : string).                (* print(f"URL: {host}\n") *)

(** The module-level list and what has been printed. *)
Record state : Type := {
  netselect_scored : list string;
  printed : list log_line
}.

(** [except (socket.gaierror, OSError, ConnectionRefusedError)] *)
Definition caught (e : exn) : bool :=
  is_gaierror e || is_OSError e || is_ConnectionRefusedError e.

(** [if res:] for [None] or a float. *)
Definition truthy (res : option Z) : bool :=
  match res with
  | None => false
  | Some elapsed => negb (elapsed =? 0)%Z
  end.

Definition net_select (env : net_env) (host : string) (st : state)
    : result unit * state :=
  let domain := re_search host in      (* [None]: the name is unbound *)
  let tried :=
    match domain with
    | None => Raise NameError
    | Some d => ping env d default_timeout 1 []
    end in
  match tried with
  | Ok res =>
      if truthy res then
        match res with
        | Some elapsed =>
            (Ok tt,
             {| netselect_scored :=
                  netselect_scored st ++ [score_entry (millis elapsed) host];
                printed := printed st |})
        | None => (Ok tt, st)
        end
      else (Ok tt, st)
  | Raise e =>
      if caught e then
        match domain with
        | None => (Raise NameError, st)
        | Some d =>
            (Ok tt,
             {| netselect_scored := netselect_scored st;
                printed := printed st ++ [error_line e d; url_line host] |})
        end
      else (Raise e, st)
  end.

(** ** The tail of fetch: threads, sort, output *)

(** [line[line.index('h'):]]; [None] is the [ValueError] of [index]. *)
Fixpoint from_first_h (line : string) : option string :=
  match line with
  | EmptyString => None
  | String c t => if Ascii.eqb c "h" then Some line else from_first_h t
  end.

Fixpoint insert_sorted (x : string) (l : list string) : list string :=
  match l with
  | [] => [x]
  | y :: t => if String.leb x y then x :: l else y :: insert_sorted x t
  end.

(** [list.sort()] on strings: ascending by code point. *)
Fixpoint sort (l : list string) : list string :=
  match l with
  | [] => []
  | x :: t => insert_sorted x (sort t)
  end.

(** The two lines written for a mirror. *)
Definition deb_lines (line release component : string) : list string :=
  [ "deb " ++ line ++ " " ++ release ++ " " ++ component;
    "deb-src " ++ line ++ " " ++ release ++ " " ++ component ].

(** The [for line in netselect_scored] loop: the mirrors written, in
    order. [num] is the counter before the iteration. *)
Fixpoint select_mirrors (num fetches : Z) (scored : list string)
    : result (list string) :=
  match scored with
  | [] => Ok []
  | line :: rest =>
      let num := (num + 1)%Z in
      match from_first_h line with
      | None => Raise ValueError
      | Some line =>
          if (num =? fetches)%Z then Ok [line]
          else
            match select_mirrors num fetches rest with
            | Ok more => Ok (line :: more)
            | Raise e => Raise e
            end
      end
  end.

(** A worker thread: an exception that leaves [net_select] ends the
    thread and is not seen by the thread that joins it. *)
Definition run_thread (env_of : string -> net_env) (st : state)
    (url : string) : state :=
  snd (net_select (env_of url) url st).

(** The workers, taken in the order in which they complete. Each one
    touches the shared state once, when it appends or prints. *)
Definition probe_all (env_of : string -> net_env) (completion : list string)
    (st : state) : state :=
  fold_left (run_thread env_of) completion st.

Inductive outcome : Type :=
| Written (mirrors : list string)   (* the mirrors put in the sources file *)
| Exited (code : Z)
| Failed (e : exn).

(** [fetch], from the check of [fetches] on, for a mirror list already
    parsed. The sorted list stays in the module-level variable. *)
Definition fetch (env_of : string -> net_env) (fetches : Z)
    (netselect : list string) (st : state) : outcome * state :=
  if ((1 <=? fetches) && (fetches <? 11))%Z then
    let st := probe_all env_of netselect st in
    let scored := sort (netselect_scored st) in
    let st := {| netselect_scored := scored; printed := printed st |} in
    match select_mirrors 0 fetches scored with
    | Ok mirrors => (Written mirrors, st)
    | Raise e => (Failed e, st)
    end
  else (Exited 1, st).

(** The text of the sources file for the mirrors written. *)
Definition sources_text (release component : string) (mirrors : list string)
    : list string :=
  "# Sources file built for nala" ::
  flat_map (fun line => deb_lines line release component) mirrors.

Local Close Scope string_scope.

(** ** Auxiliary definitions for the proofs *)

(** The little-endian words that the generator of [chk] adds up. *)
Fixpoint le_words (data : bytes) : list Z :=
  match data with
  | [] => []
  | [b] => [byte_val b]
  | b0 :: b1 :: t => (byte_val b0 + 256 * byte_val b1) :: le_words t
  end.

(** The representative of [x] in one's-complement 16-bit arithmetic:
    0 for 0, and otherwise the value of 1..65535 congruent to [x]
    modulo 65535. *)
Definition oc_norm (x : Z) : Z :=
  if x =? 0 then 0 else (x - 1) mod 65535 + 1.

(** The two bytes of a 16-bit value exchanged. *)
Definition swap16 (w : Z) : Z := 256 * (w mod 256) + w / 256.

(** What the pattern ['https?://([A-Za-z_0-9.-]+).*'] says: somewhere in
    the host there is [http://] or [https://] followed by at least one
    character of the class. The final [.*] matches any rest of the line,
    the empty one included, so it constrains nothing. *)
Fixpoint all_domain_chars (s : string) : bool :=
  match s with
  | EmptyString => true
  | String c t => is_domain_char c && all_domain_chars t
  end.

Definition pattern_matches (host : string) : Prop :=
  exists before scheme domain rest : string,
    host = (before ++ scheme ++ "://" ++ domain ++ rest)%string /\
    (scheme = "http"%string \/ scheme = "https"%string) /\
    domain <> EmptyString /\
    all_domain_chars domain = true.

(** ** Collected results as pairs *)

(** An entry of the collection, from the latency field and the URL. *)
Definition entry_of (r : string * string) : string :=
  (fst r ++ " " ++ snd r)%string.

Definition starts_with_h (s : string) : bool :=
  match s with
  | String c _ => Ascii.eqb c "h"
  | EmptyString => false
  end.

(** Ascending order on strings. *)
Definition ascending (a b : string) : Prop := String.leb a b = true.

(** The latencies 0..999. *)
Definition millis_range : list Z := map Z.of_nat (seq 0 1000).

(** The latency field of an entry. *)
Definition latency_field (ms : Z) : string := pad (str ms).

(** ** Sample collections *)

(** The three results of the specification's example, as entries. *)
Definition letter_state : state :=
  {| netselect_scored := ["010 b"; "005 a"; "999 c"]%string; printed := [] |}.

(** The same latencies with URLs that begin with [http://]. *)
Definition http_results : list (string * string) :=
  [("010", "http://b"); ("005", "http://a"); ("999", "http://c")]%string.

Definition http_state : state :=
  {| netselect_scored := map entry_of http_results; printed := [] |}.

(** ** Datagrams as the receive loop classifies them *)

(** A datagram that ends the loop with a latency: long enough, and equal
    to the expected reply from offset 20 on. *)
Definition accepted (payload d : bytes) : Prop :=
  20 <= len (recv d) /\
  declared_length (recv d) <= len (recv d) /\
  skipn 20 (recv d) = echo_reply payload.

(** A datagram after which the loop goes on waiting. *)
Definition rejected (payload d : bytes) : Prop :=
  too_short (recv d) = true \/ skipn 20 (recv d) <> echo_reply payload.

(** What the workers print when no raw socket can be opened. *)
Definition privilege_log (netselect : list string) : list log_line :=
  flat_map
    (fun url =>
       match re_search url with
       | Some d => [error_line PermissionError d; url_line url]
       | None => []
       end)
    netselect.

(** ** detect_release

    The policy lines ([shell.apt.policy(...).stdout.splitlines()]) are
    the input. The variable [release] holds in turn the list of policy
    lines, the list of the fields of a line, and a code name. *)

(** [s.split(c)] for a one-character separator: never empty. *)
Fixpoint split_on (sep : ascii) (s : string) : list string :=
  match s with
  | EmptyString => [EmptyString]
  | String c t =>
      if Ascii.eqb c sep then EmptyString :: split_on sep t
      else
        match split_on sep t with
        | h :: r => String c h :: r
        | [] => [String c EmptyString]
        end
  end.

(** [sub in s] *)
Fixpoint contains (sub s : string) : bool :=
  match strip_prefix sub s with
  | Some _ => true
  | None =>
      match s with
      | EmptyString => false
      | String _ t => contains sub t
      end
  end.

(** [s.startswith(p)] *)
Definition startswith (p s : string) : bool :=
  match strip_prefix p s with
  | Some _ => true
  | None => false
  end.

(** [s[2:]] *)
Definition drop2 (s : string) : string :=
  match s with
  | String _ (String _ t) => t
  | _ => EmptyString
  end.

Inductive release_value : Type :=
| release_list (l : list string)
| release_name (s : string).

(** What [for line in release] iterates over: the items of a list, the
    characters of a string. *)
Fixpoint characters (s : string) : list string :=
  match s with
  | EmptyString => []
  | String c t => String c EmptyString :: characters t
  end.

Definition items (release : release_value) : list string :=
  match release with
  | release_list l => l
  | release_name s => characters s
  end.

(** The innermost loop; it runs over the object that [release] names
    when the loop starts. *)
Definition codename_loop (release : release_value) : release_value :=
  fold_left
    (fun rel line => if startswith "n=" line then release_name (drop2 line)
                     else rel)
    (items release) release.

(** The loop over the fields of a line. *)
Definition fields_loop (fields : list string)
    (st : option string * release_value) : option string * release_value :=
  fold_left
    (fun st line =>
       if String.eqb line "o=Ubuntu"
       then (Some "ubuntu"%string, codename_loop (snd st))
       else st)
    fields st.

(** The loop over the policy lines. *)
Definition policy_loop (policy : list string)
    (st : option string * release_value) : option string * release_value :=
  fold_left
    (fun st line =>
       if contains "o=Ubuntu" line || contains "o=Debian" line
       then fields_loop (split_on "," line)
              (fst st, release_list (split_on "," line))
       else st)
    policy st.

(** [if release] *)
Definition release_truthy (release : release_value) : bool :=
  match release with
  | release_list [] => false
  | release_list (_ :: _) => true
  | release_name EmptyString => false
  | release_name (String _ _) => true
  end.

(** [detect_release]: the pair returned, or [None] when it reports that
    the release cannot be detected and leaves the program. *)
Definition detect_release (policy : list string)
    : option (string * release_value) :=
  let st := policy_loop policy (None, release_list policy) in
  match fst st with
  | Some distro => if release_truthy (snd st) then Some (distro, snd st)
                   else None
  | None => None
  end.

(** ** The URL between the quotes (parse_ubuntu, parse_debian) *)

(** The double quote. *)
Definition dquote : ascii := "034"%char.

(** The part of the line after the first double quote (the slice from
    [index] plus one); [None] is the [ValueError] of [index]. *)
Fixpoint after_first_quote (line : string) : option string :=
  match line with
  | EmptyString => None
  | String c t => if Ascii.eqb c dquote then Some t else after_first_quote t
  end.

(** The part of the line before the first double quote (the slice up
    to [index]). *)
Fixpoint before_first_quote (line : string) : option string :=
  match line with
  | EmptyString => None
  | String c t =>
      if Ascii.eqb c dquote then Some EmptyString
      else
        match before_first_quote t with
        | Some u => Some (String c u)
        | None => None
        end
  end.

(** The two statements that both parsers apply to a line they keep. *)
Definition between_quotes (line : string) : result string :=
  match after_first_quote line with
  | None => Raise ValueError
  | Some line =>
      match before_first_quote line with
      | None => Raise ValueError
      | Some line => Ok line
      end
  end.

(** A string without a double quote. *)
Fixpoint no_quote (s : string) : bool :=
  match s with
  | EmptyString => true
  | String c t => negb (Ascii.eqb c dquote) && no_quote t
  end.

(** The two texts that [parse_ubuntu] looks for in a line: a double
    quote followed by [http://], and a double quote followed by
    [>http</a>]. *)
Definition http_quote : string := String dquote "http://".

Definition http_anchor : string := String dquote ">http</a>".

(** The body of the loop over the lines of a mirror: [None] when the
    line is skipped, otherwise the outcome of the extraction. *)
Definition ubuntu_line (line : string) : option (result string) :=
  if contains http_quote line && contains http_anchor line
  then Some (between_quotes line)
  else None.

(** [for line in mirror.splitlines()], appending to [mirror_list]. *)
Fixpoint ubuntu_lines (lines mirror_list : list string)
    : result (list string) :=
  match lines with
  | [] => Ok mirror_list
  | line :: rest =>
      match ubuntu_line line with
      | None => ubuntu_lines rest mirror_list
      | Some (Ok url) => ubuntu_lines rest (mirror_list ++ [url])
      | Some (Raise e) => Raise e
      end
  end.

(** ** Sample environments *)

(** A network on which every call succeeds and nothing ever arrives. *)
Definition quiet_env : net_env :=
  {| socket_error := None;
     connect_error := fun _ => None;
     sendall_error := None;
     rand := 7;
     start_time := 0;
     recv_cost := 0;
     inbox := [] |}.

(** A process that may not open raw sockets. *)
Definition no_privilege_env : net_env :=
  {| socket_error := Some PermissionError;
     connect_error := fun _ => None;
     sendall_error := None;
     rand := 7;
     start_time := 0;
     recv_cost := 0;
     inbox := [] |}.

(** A 20-byte IP header that declares a total length of 28. *)
Definition ip_header : bytes :=
  [x45; x00; x00; x1c; x00; x00; x00; x00; x40; x01;
   x00; x00; x0a; x00; x00; x01; x0a; x00; x00; x02].

(** The datagram a host sends back for identifier [ident], sequence
    [number] and data [data]. *)
Definition reply_datagram (ident number : Z) (data : bytes) : bytes :=
  ip_header ++ echo_reply (pack_be_H ident ++ pack_be_H number ++ data).

(** A host whose exact reply arrives [elapsed] microseconds after the
    request was sent. *)
Definition reply_env (elapsed : Z) : net_env :=
  {| socket_error := None;
     connect_error := fun _ => None;
     sendall_error := None;
     rand := 7;
     start_time := 0;
     recv_cost := 0;
     inbox := [(elapsed, reply_datagram 7 1 [])] |}.



(** A host on which handling a datagram takes 7: a stray datagram at 5,
    then the exact reply at 12. *)
Definition slow_env : net_env :=
  {| socket_error := None;
     connect_error := fun _ => None;
     sendall_error := None;
     rand := 7;
     start_time := 0;
     recv_cost := 7;
     inbox := [(5, [x45; x00; x00; x08; x00; x00; x00; x00]);
               (12, reply_datagram 7 1 [])] |}.

Definition empty_state : state :=
  {| netselect_scored := []; printed := [] |}.

(** What the worker of [host] adds to the collection: one entry or
    none. *)
Definition recorded (env : net_env) (host : string) : list string :=
  netselect_scored (snd (net_select env host empty_state)).

(** What a worker may add, read off [net_select]: one entry for its own
    URL when the host matches the pattern and [ping] returns a non-zero
    elapsed time, and nothing in every other case. *)
Definition worker_entry (env : net_env) (url : string) (added : list string)
    : Prop :=
  match re_search url with
  | Some d =>
      match ping env d default_timeout 1 [] with
      | Ok (Some elapsed) =>
          if elapsed =? 0 then added = []
          else exists ms, added = [score_entry ms url]
      | _ => added = []
      end
  | None => added = []
  end.

(** The outcome of the [for line in netselect_scored] loop of [fetch]. *)
Definition written (selected : result (list string)) : outcome :=
  match selected with
  | Ok mirrors => Written mirrors
  | Raise e => Failed e
  end.

(** 131075 bytes, all 0xFF: 65537 words 0xFFFF and a final byte. *)
Definition long_ff : bytes := repeat xff (N.to_nat 131075).

(** * Properties *)

(** ** Bytes and sums *)

Lemma byte_val_range (b : byte) : 0 <= byte_val b <= 255.
Proof.
  unfold byte_val. pose proof (Byte.to_N_bounded b). lia.
Qed.

Lemma byte_val_of_Z (z : Z) : byte_val (byte_of_Z z) = z mod 256.
Proof.
  unfold byte_val, byte_of_Z.
  pose proof (Z.mod_pos_bound z 256 ltac:(lia)) as Hz.
  destruct (Byte.of_N (Z.to_N (z mod 256))) as [b|] eqn:E.
  - apply Byte.to_of_N in E. rewrite E. lia.
  - apply Byte.of_N_None_iff in E. lia.
Qed.

Lemma byte_of_Z_val (b : byte) : byte_of_Z (byte_val b) = b.
Proof.
  unfold byte_of_Z, byte_val.
  pose proof (Byte.to_N_bounded b) as Hb.
  rewrite Z.mod_small by lia. rewrite N2Z.id.
  rewrite Byte.of_to_N. reflexivity.
Qed.

Lemma fold_left_add (l : list Z) (a : Z) : fold_left Z.add l a = a + sum_Z l.
Proof.
  revert a. induction l as [|x l IH]; intros a; simpl.
  - lia.
  - rewrite IH. lia.
Qed.

Lemma py_sum_sum_Z (l : list Z) : py_sum l = sum_Z l.
Proof. unfold py_sum. rewrite fold_left_add. lia. Qed.

Lemma sum_Z_app (l1 l2 : list Z) : sum_Z (l1 ++ l2) = sum_Z l1 + sum_Z l2.
Proof. induction l1 as [|x l1 IH]; simpl; lia. Qed.

(** Induction on a byte string two bytes at a time. *)
Lemma bytes_pair_ind (P : bytes -> Prop) :
  P [] -> (forall b, P [b]) -> (forall b0 b1 t, P t -> P (b0 :: b1 :: t)) ->
  forall data, P data.
Proof.
  intros H0 H1 H2.
  assert (forall data, P data /\ forall b, P (b :: data)) as H.
  { induction data as [|a data [IHa IHb]]; split; auto. }
  intros data. apply H.
Qed.

Lemma chk_term_even (i : Z) (x : byte) :
  i mod 2 = 0 -> chk_term (i, x) = byte_val x.
Proof. intros H. unfold chk_term. rewrite H. reflexivity. Qed.

Lemma chk_term_odd (i : Z) (x : byte) :
  i mod 2 = 1 -> chk_term (i, x) = 256 * byte_val x.
Proof.
  intros H. unfold chk_term. rewrite H.
  change (1 =? 0) with false. cbv iota.
  rewrite Z.shiftl_mul_pow2 by lia. change (2 ^ 8) with 256. lia.
Qed.

Lemma generator_sum_from (data : bytes) :
  forall i, i mod 2 = 0 ->
  sum_Z (map chk_term (enumerate_from i data)) = sum_Z (le_words data).
Proof.
  induction data as [| b | b0 b1 t IH] using bytes_pair_ind; intros i Hi.
  - reflexivity.
  - cbn [enumerate_from map sum_Z le_words].
    rewrite chk_term_even by assumption. reflexivity.
  - cbn [enumerate_from map sum_Z le_words].
    rewrite chk_term_even by assumption.
    rewrite chk_term_odd.
    + rewrite IH; [lia|].
      replace (i + 1 + 1) with (i + 1 * 2) by lia.
      rewrite Z.mod_add by lia. assumption.
    + replace (i + 1) with (1 + i) by lia.
      rewrite <- Zplus_mod_idemp_r, Hi. reflexivity.
Qed.

Lemma generator_sum (data : bytes) :
  py_sum (map chk_term (enumerate data)) = sum_Z (le_words data).
Proof.
  rewrite py_sum_sum_Z. apply generator_sum_from. reflexivity.
Qed.

Lemma le_words_nonneg (data : bytes) : 0 <= sum_Z (le_words data).
Proof.
  induction data as [| b | b0 b1 t IH] using bytes_pair_ind;
    cbn [le_words sum_Z]; try lia.
  - pose proof (byte_val_range b). lia.
  - pose proof (byte_val_range b0). pose proof (byte_val_range b1). lia.
Qed.

Lemma be_words_nonneg (data : bytes) : 0 <= sum_Z (be_words data).
Proof.
  induction data as [| b | b0 b1 t IH] using bytes_pair_ind;
    cbn [be_words sum_Z]; try lia.
  - pose proof (byte_val_range b). lia.
  - pose proof (byte_val_range b0). pose proof (byte_val_range b1). lia.
Qed.

(** Both sums are bounded by 65535 times the number of words. *)
Lemma word_sums_bound (data : bytes) :
  exists n : Z,
    2 * n <= len data + 1 /\
    sum_Z (le_words data) <= 65535 * n /\
    sum_Z (be_words data) <= 65535 * n.
Proof.
  unfold len.
  induction data as [| b | b0 b1 t IH] using bytes_pair_ind.
  - exists 0. cbn. lia.
  - exists 1. cbn [le_words be_words sum_Z List.length].
    pose proof (byte_val_range b). lia.
  - destruct IH as (n & Hn & Hle & Hbe). exists (n + 1).
    cbn [le_words be_words sum_Z List.length].
    pose proof (byte_val_range b0). pose proof (byte_val_range b1). lia.
Qed.

(** Exchanging the bytes of every word multiplies the sum by 256
    modulo 65535. *)
Lemma be_le_words (data : bytes) :
  exists e : Z,
    256 * sum_Z (be_words data) = sum_Z (le_words data) + 65535 * e /\
    sum_Z (le_words data) <= 256 * sum_Z (be_words data) /\
    sum_Z (be_words data) <= 256 * sum_Z (le_words data).
Proof.
  induction data as [| b | b0 b1 t IH] using bytes_pair_ind.
  - exists 0. cbn. lia.
  - exists (byte_val b). cbn [le_words be_words sum_Z].
    pose proof (byte_val_range b). lia.
  - destruct IH as (e & He & H1 & H2). exists (e + byte_val b0).
    cbn [le_words be_words sum_Z].
    pose proof (byte_val_range b0). pose proof (byte_val_range b1). lia.
Qed.

(** ** Folding carries *)

Lemma land_ones16 (x : Z) : Z.land x 65535 = x mod 65536.
Proof. change 65535 with (Z.ones 16). rewrite Z.land_ones by lia. reflexivity. Qed.

Lemma land_ones32 (x : Z) : Z.land x 4294967295 = x mod 4294967296.
Proof. change 4294967295 with (Z.ones 32). rewrite Z.land_ones by lia. reflexivity. Qed.

Lemma land_ones8 (x : Z) : Z.land x 255 = x mod 256.
Proof. change 255 with (Z.ones 8). rewrite Z.land_ones by lia. reflexivity. Qed.

Lemma fold16_div_mod (x : Z) : fold16 x = x / 65536 + x mod 65536.
Proof.
  unfold fold16. rewrite land_ones16, Z.shiftr_div_pow2 by lia. reflexivity.
Qed.

Lemma oc_norm_spec (x : Z) :
  0 <= x ->
  0 <= oc_norm x <= 65535 /\
  (oc_norm x = 0 <-> x = 0) /\
  exists k, x = oc_norm x + 65535 * k.
Proof.
  intros Hx. unfold oc_norm. destruct (Z.eqb_spec x 0) as [->|Hne].
  - repeat split; try lia. exists 0. lia.
  - pose proof (Z.mod_pos_bound (x - 1) 65535 ltac:(lia)).
    pose proof (Z.div_mod (x - 1) 65535 ltac:(lia)).
    repeat split; try lia. exists ((x - 1) / 65535). lia.
Qed.

Lemma oc_norm_unique (x v k : Z) :
  0 <= x -> 0 <= v <= 65535 -> (v = 0 <-> x = 0) -> x = v + 65535 * k ->
  v = oc_norm x.
Proof.
  intros Hx Hv Hz Hk. unfold oc_norm. destruct (Z.eqb_spec x 0) as [E|Hne].
  - apply Hz. exact E.
  - assert (v <> 0) by (intros E; apply Hne, Hz, E).
    assert ((x - 1) mod 65535 = v - 1) as ->; [|lia].
    symmetry. apply Z.mod_unique with (q := k); lia.
Qed.

Lemma oc_norm_small (x : Z) : 0 <= x <= 65535 -> oc_norm x = x.
Proof.
  intros Hx. symmetry. apply oc_norm_unique with (k := 0); lia.
Qed.

Lemma oc_norm_fold16 (x : Z) : 0 <= x -> oc_norm (fold16 x) = oc_norm x.
Proof.
  intros Hx. rewrite fold16_div_mod.
  pose proof (Z.mod_pos_bound x 65536 ltac:(lia)) as Hm.
  pose proof (Z.div_mod x 65536 ltac:(lia)) as Hd.
  assert (0 <= x / 65536) as Hq by (apply Z.div_pos; lia).
  destruct (oc_norm_spec (x / 65536 + x mod 65536) ltac:(lia))
    as (Hr & Hz & k & Hk).
  apply oc_norm_unique with (k := k + x / 65536); lia.
Qed.

Lemma fold16_twice (x : Z) :
  0 <= x < 4294967296 -> fold16 (fold16 x) = oc_norm x.
Proof.
  intros Hx.
  rewrite <- (oc_norm_fold16 x) by lia.
  assert (0 <= fold16 x <= 131070) as Hy.
  { rewrite fold16_div_mod.
    pose proof (Z.mod_pos_bound x 65536 ltac:(lia)).
    assert (0 <= x / 65536 <= 65535).
    { split; [apply Z.div_pos; lia|].
      apply Z.lt_succ_r, Z.div_lt_upper_bound; lia. }
    lia. }
  rewrite <- (oc_norm_fold16 (fold16 x)) by lia.
  symmetry. apply oc_norm_small.
  rewrite (fold16_div_mod (fold16 x)).
  pose proof (Z.mod_pos_bound (fold16 x) 65536 ltac:(lia)).
  pose proof (Z.div_mod (fold16 x) 65536 ltac:(lia)).
  assert (0 <= fold16 x / 65536 <= 1).
  { split; [apply Z.div_pos; lia|].
    apply Z.lt_succ_r, Z.div_lt_upper_bound; lia. }
  lia.
Qed.

Lemma fold_carries_norm (x : Z) : 0 <= x -> fold_carries x = oc_norm x.
Proof.
  funelim (fold_carries x); intros Hx.
  - symmetry. apply oc_norm_small. lia.
  - rewrite H.
    + apply oc_norm_fold16. exact Hx.
    + rewrite fold16_div_mod.
      pose proof (Z.mod_pos_bound x 65536 ltac:(lia)).
      assert (0 <= x / 65536) by (apply Z.div_pos; lia). lia.
Qed.

Lemma lnot_mask16 (x : Z) :
  0 <= x <= 65535 -> Z.land (Z.lnot x) 65535 = 65535 - x.
Proof.
  intros Hx. rewrite land_ones16. unfold Z.lnot.
  symmetry. apply Z.mod_unique with (q := -1); lia.
Qed.

Lemma chk_value_norm (data : bytes) :
  chk_value data = 65535 - oc_norm (sum_Z (le_words data) mod 4294967296).
Proof.
  unfold chk_value. cbv zeta.
  rewrite generator_sum, land_ones32.
  pose proof (Z.mod_pos_bound (sum_Z (le_words data)) 4294967296 ltac:(lia)) as Hm.
  rewrite fold16_twice by lia.
  apply lnot_mask16. apply oc_norm_spec. lia.
Qed.

Lemma rfc1071_value32_norm (data : bytes) :
  rfc1071_value32 data = 65535 - oc_norm (sum_Z (be_words data) mod 4294967296).
Proof.
  unfold rfc1071_value32. cbv zeta.
  pose proof (Z.mod_pos_bound (sum_Z (be_words data)) 4294967296 ltac:(lia)) as Hm.
  rewrite fold_carries_norm by lia.
  apply lnot_mask16. apply oc_norm_spec. lia.
Qed.

Lemma rfc1071_value_norm (data : bytes) :
  rfc1071_value data = 65535 - oc_norm (sum_Z (be_words data)).
Proof.
  unfold rfc1071_value.
  pose proof (be_words_nonneg data).
  rewrite fold_carries_norm by lia.
  apply lnot_mask16. apply oc_norm_spec. lia.
Qed.

(** ** Byte order *)

Lemma swap16_spec (w : Z) :
  0 <= w <= 65535 ->
  0 <= swap16 w <= 65535 /\
  (swap16 w = 0 <-> w = 0) /\
  256 * w = swap16 w + 65535 * (w / 256).
Proof.
  intros Hw. unfold swap16.
  pose proof (Z.mod_pos_bound w 256 ltac:(lia)).
  pose proof (Z.div_mod w 256 ltac:(lia)).
  assert (0 <= w / 256 <= 255).
  { split; [apply Z.div_pos; lia|].
    apply Z.lt_succ_r, Z.div_lt_upper_bound; lia. }
  repeat split; lia.
Qed.

(** The one's-complement sum of the byte-swapped words is the byte-swapped
    one's-complement sum. *)
Lemma oc_norm_le_be (data : bytes) :
  oc_norm (sum_Z (le_words data)) = swap16 (oc_norm (sum_Z (be_words data))).
Proof.
  pose proof (le_words_nonneg data) as Hle.
  pose proof (be_words_nonneg data) as Hbe.
  destruct (be_le_words data) as (e & He & H1 & H2).
  destruct (oc_norm_spec _ Hbe) as (Hr & Hz & k & Hk).
  destruct (swap16_spec _ Hr) as (Hsr & Hsz & Hs).
  symmetry.
  apply oc_norm_unique
    with (k := 256 * k - e + oc_norm (sum_Z (be_words data)) / 256);
    lia.
Qed.

Lemma pack_swap (f : Z) :
  0 <= f <= 65535 ->
  pack_le_H (65535 - swap16 f) = pack_be_H (65535 - f).
Proof.
  intros Hf. unfold pack_le_H, pack_be_H, swap16.
  rewrite !land_ones8, !Z.shiftr_div_pow2 by lia. change (2 ^ 8) with 256.
  pose proof (Z.mod_pos_bound f 256 ltac:(lia)).
  pose proof (Z.div_mod f 256 ltac:(lia)).
  assert (0 <= f / 256 <= 255).
  { split; [apply Z.div_pos; lia|].
    apply Z.lt_succ_r, Z.div_lt_upper_bound; lia. }
  f_equal; [|f_equal]; f_equal.
  - transitivity (255 - f / 256).
    + symmetry. apply Z.mod_unique with (q := 255 - f mod 256); lia.
    + apply Z.div_unique with (r := 255 - f mod 256); lia.
  - transitivity (255 - f mod 256).
    + symmetry. apply Z.div_unique with (r := 255 - f / 256); lia.
    + apply Z.mod_unique with (q := 255 - f / 256); lia.
Qed.

(** ** The checksum against its specification *)

Lemma sums_fit_32_bits (data : bytes) :
  len data <= 131074 ->
  0 <= sum_Z (le_words data) < 4294967296 /\
  0 <= sum_Z (be_words data) < 4294967296.
Proof.
  intros Hlen.
  pose proof (le_words_nonneg data). pose proof (be_words_nonneg data).
  destruct (word_sums_bound data) as (n & Hn & Hle & Hbe).
  lia.
Qed.

(** C1 (as amended): for every byte string of at most 131074 bytes, [chk]
    returns the two bytes, in network order, of the Internet checksum
    computed over big-endian 16-bit words (an odd final byte being the
    high byte of a word whose low byte is zero) with a 32-bit accumulator,
    carries folded until the value fits in 16 bits, complemented and
    masked to 16 bits. Up to that length the 32-bit accumulator never
    overflows, so the result is also the checksum computed with an
    unbounded accumulator. *)
Theorem chk_is_rfc1071_up_to_131074_bytes (data : bytes) :
  len data <= 131074 ->
  chk data = rfc1071_chk32 data /\ chk data = rfc1071_chk data.
Proof.
  intros Hlen.
  destruct (sums_fit_32_bits data Hlen) as [Hle Hbe].
  assert (chk data = rfc1071_chk data) as E.
  { unfold chk, rfc1071_chk.
    rewrite chk_value_norm, rfc1071_value_norm.
    rewrite Z.mod_small by lia.
    rewrite oc_norm_le_be.
    apply pack_swap. apply oc_norm_spec. lia. }
  split; [|exact E].
  rewrite E. unfold rfc1071_chk, rfc1071_chk32.
  rewrite rfc1071_value_norm, rfc1071_value32_norm.
  rewrite Z.mod_small by lia. reflexivity.
Qed.

Lemma chk_is_rfc1071_witness :
  len [x08; x00; x00; x00; x12; x34; x00; x01] <= 131074 /\
  chk [x08; x00; x00; x00; x12; x34; x00; x01]
  = rfc1071_chk32 [x08; x00; x00; x00; x12; x34; x00; x01].
Proof.
  split.
  - vm_compute. discriminate.
  - apply (chk_is_rfc1071_up_to_131074_bytes
             [x08; x00; x00; x00; x12; x34; x00; x01]).
    vm_compute. discriminate.
Defined.

(** C1 (as stated) fails on [long_ff]. The little-endian sum of [chk] is
    65537 * 0xFFFF + 0xFF = 2^32 + 254, masked to 254, which folds to
    0x00FE and gives the bytes 01 FF. The big-endian sum is
    65537 * 0xFFFF + 0xFF00 = 2^32 + 65279, masked to 0xFEFF, whose
    complement 0x0100 is written 01 00. *)
Lemma chk_differs_on_long_input :
  chk long_ff = [x01; xff] /\
  rfc1071_chk32 long_ff = [x01; x00] /\
  chk long_ff <> rfc1071_chk32 long_ff.
Proof.
  assert (chk long_ff = [x01; xff]) as E1 by (vm_compute; reflexivity).
  assert (rfc1071_chk32 long_ff = [x01; x00]) as E2.
  { unfold rfc1071_chk32. rewrite rfc1071_value32_norm.
    vm_compute. reflexivity. }
  split; [exact E1|]. split; [exact E2|].
  rewrite E1, E2. discriminate.
Qed.

(** On the same input the checksum with an unbounded accumulator is
    0x00FF, so [chk] differs from that reading as well. *)
Lemma chk_differs_from_unbounded_sum :
  rfc1071_chk long_ff = [x00; xff] /\ chk long_ff <> rfc1071_chk long_ff.
Proof.
  assert (rfc1071_chk long_ff = [x00; xff]) as E.
  { unfold rfc1071_chk. rewrite rfc1071_value_norm. vm_compute. reflexivity. }
  split; [exact E|].
  rewrite E. replace (chk long_ff) with [x01; xff] by (vm_compute; reflexivity).
  discriminate.
Qed.

(** ** Self-validation *)

Lemma chk_value_range (data : bytes) : 0 <= chk_value data <= 65535.
Proof.
  rewrite chk_value_norm.
  pose proof (Z.mod_pos_bound (sum_Z (le_words data)) 4294967296 ltac:(lia)).
  pose proof (oc_norm_spec (sum_Z (le_words data) mod 4294967296) ltac:(lia)).
  lia.
Qed.

(** Adding the checksum to the masked sum reaches a positive multiple of
    65535 without leaving 32 bits. *)
Lemma oc_norm_completed (x : Z) :
  0 <= x < 4294967296 ->
  0 <= x + (65535 - oc_norm x) < 4294967296 /\
  oc_norm (x + (65535 - oc_norm x)) = 65535.
Proof.
  intros Hx.
  destruct (oc_norm_spec x ltac:(lia)) as (Hr & Hz & k & Hk).
  assert (0 <= k <= 65536) as Hkr.
  { destruct (Z.eq_dec x 0) as [E|E].
    - apply Hz in E. lia.
    - assert (oc_norm x <> 0) by (intros F; apply E, Hz, F). lia. }
  split; [lia|].
  symmetry. apply oc_norm_unique with (k := k).
  - lia.
  - lia.
  - split; intros F; lia.
  - lia.
Qed.

Lemma spliced_checksum_is_zero (ty code : byte) (payload : bytes) :
  chk_value ([ty; code] ++ chk ([ty; code; x00; x00] ++ payload) ++ payload) = 0.
Proof.
  pose proof (chk_value_range (ty :: code :: x00 :: x00 :: payload)) as Hc.
  rewrite chk_value_norm. unfold chk, pack_le_H.
  cbn [app le_words sum_Z].
  rewrite !byte_val_of_Z.
  rewrite land_ones8, Z.shiftr_div_pow2 by lia. change (2 ^ 8) with 256.
  set (c := chk_value (ty :: code :: x00 :: x00 :: payload)) in *.
  rewrite Z.mod_mod by lia.
  assert (c / 256 mod 256 = c / 256) as ->.
  { apply Z.mod_small. split; [apply Z.div_pos; lia|].
    apply Z.div_lt_upper_bound; lia. }
  assert (c mod 256 + 256 * (c / 256) = c) as ->.
  { pose proof (Z.div_mod c 256 ltac:(lia)). lia. }
  subst c. rewrite chk_value_norm. cbn [le_words sum_Z].
  change (byte_val x00) with 0.
  set (s := byte_val ty + 256 * byte_val code) in *.
  set (p := sum_Z (le_words payload)) in *.
  replace (s + (0 + 256 * 0 + p)) with (s + p) by lia.
  set (x := (s + p) mod 4294967296).
  pose proof (Z.mod_pos_bound (s + p) 4294967296 ltac:(lia)) as Hx.
  destruct (oc_norm_completed x Hx) as [Hfit Hn].
  replace (s + (65535 - oc_norm x + p)) with ((s + p) + (65535 - oc_norm x)) by lia.
  rewrite <- Zplus_mod_idemp_l. fold x.
  rewrite Z.mod_small by lia.
  rewrite Hn. reflexivity.
Qed.

Lemma le_words_zero (data : bytes) :
  (forall b, In b data -> b = x00) -> sum_Z (le_words data) = 0.
Proof.
  induction data as [| b | b0 b1 t IH] using bytes_pair_ind; intros H.
  - reflexivity.
  - rewrite (H b) by (left; reflexivity). reflexivity.
  - cbn [le_words sum_Z].
    rewrite (H b0) by (left; reflexivity).
    rewrite (H b1) by (right; left; reflexivity).
    rewrite IH; [reflexivity|].
    intros b Hb. apply H. right. right. exact Hb.
Qed.

(** C8: the checksum validates itself. For every payload (and every
    type and code byte), the checksum computed over the packet with its
    checksum field zeroed, spliced into that field, makes the checksum
    of the whole packet zero; this holds for the echo request that [ping]
    sends and for the reply it expects. And the checksum of an all-zero
    payload of even length is 0xFFFF. *)
Theorem chk_self_validating :
  (forall (ty code : byte) (payload : bytes),
     chk ([ty; code] ++ chk ([ty; code; x00; x00] ++ payload) ++ payload)
     = [x00; x00]) /\
  (forall payload, chk (echo_request payload) = [x00; x00]) /\
  (forall payload, chk (echo_reply payload) = [x00; x00]) /\
  (forall n : nat,
     chk_value (repeat x00 (2 * n)) = 65535 /\
     chk (repeat x00 (2 * n)) = [xff; xff]).
Proof.
  assert (forall (ty code : byte) (payload : bytes),
     chk ([ty; code] ++ chk ([ty; code; x00; x00] ++ payload) ++ payload)
     = [x00; x00]) as H.
  { intros ty code payload. unfold chk at 1.
    rewrite spliced_checksum_is_zero. reflexivity. }
  split; [exact H|]. split; [|split].
  - intros payload. apply H.
  - intros payload. apply H.
  - intros n.
    assert (chk_value (repeat x00 (2 * n)) = 65535) as E.
    { rewrite chk_value_norm, le_words_zero.
      - reflexivity.
      - intros b Hb. apply repeat_spec in Hb. exact Hb. }
    split; [exact E|]. unfold chk. rewrite E. reflexivity.
Qed.

(** ** The regular expression *)

Lemma strip_prefix_app (p r : string) : strip_prefix p (p ++ r)%string = Some r.
Proof.
  induction p as [|a p IH]; simpl.
  - reflexivity.
  - rewrite Ascii.eqb_refl. exact IH.
Qed.

Lemma strip_prefix_some (p s r : string) :
  strip_prefix p s = Some r -> s = (p ++ r)%string.
Proof.
  revert s. induction p as [|a p IH]; intros s H; simpl in *.
  - congruence.
  - destruct s as [|b s]; [discriminate|].
    destruct (Ascii.eqb_spec a b) as [->|]; [|discriminate].
    rewrite (IH _ H). reflexivity.
Qed.

Lemma take_domain_app (d rest : string) :
  all_domain_chars d = true ->
  exists more, take_domain (d ++ rest)%string = (d ++ more)%string.
Proof.
  induction d as [|c d IH]; intros H; simpl in *.
  - exists (take_domain rest). reflexivity.
  - apply andb_prop in H. destruct H as [Hc Hd]. rewrite Hc.
    destruct (IH Hd) as [more E]. exists more. rewrite E. reflexivity.
Qed.

Lemma take_domain_spec (s : string) :
  all_domain_chars (take_domain s) = true /\
  exists rest, s = (take_domain s ++ rest)%string.
Proof.
  induction s as [|c s [IH1 [rest IH2]]]; simpl.
  - split; [reflexivity|]. exists EmptyString. reflexivity.
  - destruct (is_domain_char c) eqn:Hc; simpl.
    + rewrite Hc, IH1. split; [reflexivity|].
      exists rest. rewrite <- IH2. reflexivity.
    + split; [reflexivity|]. exists (String c s). reflexivity.
Qed.

Lemma group1_some (rest d : string) :
  group1 rest = Some d ->
  d <> EmptyString /\ all_domain_chars d = true /\
  exists tail, rest = (d ++ tail)%string.
Proof.
  unfold group1. intros H.
  destruct (take_domain_spec rest) as [Hall Hrest].
  destruct (take_domain rest) as [|c t] eqn:E; [discriminate|].
  injection H as <-. split; [discriminate|]. split; assumption.
Qed.

Lemma group1_app (d rest : string) :
  d <> EmptyString -> all_domain_chars d = true ->
  group1 (d ++ rest)%string <> None.
Proof.
  intros Hne Hall. unfold group1.
  destruct (take_domain_app d rest Hall) as [more ->].
  destruct d as [|c d]; [contradiction|]. simpl. discriminate.
Qed.

Lemma match_here_some (s d : string) :
  match_here s = Some d ->
  exists scheme rest,
    s = (scheme ++ "://" ++ d ++ rest)%string /\
    (scheme = "http"%string \/ scheme = "https"%string) /\
    d <> EmptyString /\ all_domain_chars d = true.
Proof.
  unfold match_here. intros H.
  destruct (strip_prefix "https://" s) as [r|] eqn:E1.
  - apply strip_prefix_some in E1.
    destruct (group1_some _ _ H) as (Hne & Hall & tail & ->).
    exists "https"%string, tail. subst s. repeat split; auto.
  - destruct (strip_prefix "http://" s) as [r|] eqn:E2; [|discriminate].
    apply strip_prefix_some in E2.
    destruct (group1_some _ _ H) as (Hne & Hall & tail & ->).
    exists "http"%string, tail. subst s. repeat split; auto.
Qed.

Lemma match_here_app (scheme d rest : string) :
  (scheme = "http"%string \/ scheme = "https"%string) ->
  d <> EmptyString -> all_domain_chars d = true ->
  match_here (scheme ++ "://" ++ d ++ rest)%string <> None.
Proof.
  intros [-> | ->] Hne Hall; unfold match_here.
  - change (strip_prefix "https://" ("http" ++ "://" ++ d ++ rest)%string)
      with (@None string).
    change ("http" ++ "://" ++ d ++ rest)%string
      with ("http://" ++ (d ++ rest))%string.
    rewrite strip_prefix_app. apply group1_app; assumption.
  - change ("https" ++ "://" ++ d ++ rest)%string
      with ("https://" ++ (d ++ rest))%string.
    rewrite strip_prefix_app. apply group1_app; assumption.
Qed.

Lemma re_search_some (host d : string) :
  re_search host = Some d -> pattern_matches host.
Proof.
  induction host as [|c host IH]; simpl.
  - destruct (match_here EmptyString) eqn:E; [|discriminate].
    discriminate E.
  - destruct (match_here (String c host)) as [d'|] eqn:E.
    + intros _. destruct (match_here_some _ _ E) as (scheme & rest & Hs & Hsch & Hne & Hall).
      exists EmptyString, scheme, d', rest. auto.
    + intros H. destruct (IH H) as (before & scheme & dom & rest & Hs & Hrest).
      exists (String c before), scheme, dom, rest.
      split; [|exact Hrest]. simpl. rewrite Hs. reflexivity.
Qed.

Lemma re_search_none_here (s : string) :
  re_search s = None -> match_here s = None.
Proof.
  destruct s as [|c s].
  - intros _. reflexivity.
  - simpl. destruct (match_here (String c s)); intros H.
    + discriminate H.
    + reflexivity.
Qed.

Lemma re_search_none_tail (c : ascii) (s : string) :
  re_search (String c s) = None -> re_search s = None.
Proof.
  simpl. destruct (match_here (String c s)); intros H;
    (discriminate H || exact H).
Qed.

Lemma re_search_none (host : string) :
  re_search host = None <-> ~ pattern_matches host.
Proof.
  split.
  - intros H (before & scheme & d & rest & Hs & Hsch & Hne & Hall).
    subst host. induction before as [|c before IH].
    + apply (match_here_app scheme d rest Hsch Hne Hall).
      apply re_search_none_here. exact H.
    + apply IH. apply (re_search_none_tail c). exact H.
  - intros H. destruct (re_search host) as [d|] eqn:E; [|reflexivity].
    exfalso. apply H. apply (re_search_some host d E).
Qed.

(** ** net_select *)

Lemma caught_spec (e : exn) : caught e = is_OSError e.
Proof. destruct e; reflexivity. Qed.

(** C10: for every host that does not match the pattern, [net_select]
    appends nothing and prints nothing: [domain] is unbound, its use
    raises [NameError], and the [except] clause, which names
    [socket.gaierror], [OSError] and [ConnectionRefusedError], does not
    catch it, so the exception leaves [net_select]. *)
Theorem net_select_unmatched_host_raises_NameError
    (env : net_env) (host : string) (st : state) :
  ~ pattern_matches host ->
  net_select env host st = (Raise NameError, st) /\
  caught NameError = false.
Proof.
  intros H. apply re_search_none in H.
  unfold net_select. rewrite H. split; reflexivity.
Qed.

Lemma net_select_unmatched_host_witness :
  ~ pattern_matches "ftp://mirror.example.org" /\
  net_select quiet_env "ftp://mirror.example.org" empty_state
  = (Raise NameError, empty_state).
Proof.
  assert (~ pattern_matches "ftp://mirror.example.org") as H.
  { apply re_search_none. vm_compute. reflexivity. }
  split; [exact H|].
  apply (net_select_unmatched_host_raises_NameError
           quiet_env "ftp://mirror.example.org" empty_state H).
Defined.

Lemma net_select_socket_error (env : net_env) (host d : string) (st : state)
    (e : exn) :
  socket_error env = Some e -> is_OSError e = true ->
  re_search host = Some d ->
  net_select env host st =
  (Ok tt,
   {| netselect_scored := netselect_scored st;
      printed := printed st ++ [error_line e d; url_line host] |}).
Proof.
  intros He Hos Hd. unfold net_select, ping, ping_run.
  rewrite Hd, He, caught_spec, Hos. reflexivity.
Qed.

Lemma probe_all_cons (env_of : string -> net_env) (url : string)
    (rest : list string) (st : state) :
  probe_all env_of (url :: rest) st
  = probe_all env_of rest (run_thread env_of st url).
Proof. reflexivity. Qed.

Lemma probe_all_without_privilege (env_of : string -> net_env)
    (netselect : list string) :
  (forall url, In url netselect ->
     socket_error (env_of url) = Some PermissionError /\ pattern_matches url) ->
  forall st,
    probe_all env_of netselect st =
    {| netselect_scored := netselect_scored st;
       printed := printed st ++ privilege_log netselect |}.
Proof.
  induction netselect as [|url rest IH]; intros H st.
  - unfold privilege_log. simpl. rewrite app_nil_r. destruct st; reflexivity.
  - rewrite probe_all_cons.
    destruct (H url (or_introl eq_refl)) as [He Hm].
    destruct (re_search url) as [d|] eqn:Hd.
    2:{ exfalso. apply re_search_none in Hd. contradiction. }
    unfold run_thread.
    rewrite (net_select_socket_error _ _ d st PermissionError He eq_refl Hd).
    rewrite IH by (intros u Hu; apply H; right; exact Hu).
    unfold privilege_log. simpl. rewrite Hd.
    rewrite <- app_assoc. reflexivity.
Qed.

(** C6 (as amended): when opening the raw socket fails for lack of
    privilege, the error is caught at the per-mirror boundary. Every
    worker prints the error with its domain and its URL, appends no
    result and returns normally; the run goes on, and with a collection
    that was empty it ends by writing a sources file with no mirror. *)
Theorem raw_socket_failure_is_caught_per_mirror
    (env_of : string -> net_env) (fetches : Z) (netselect : list string)
    (st : state) :
  1 <= fetches <= 10 ->
  (forall url, In url netselect ->
     socket_error (env_of url) = Some PermissionError /\ pattern_matches url) ->
  (forall url, In url netselect ->
     fst (net_select (env_of url) url st) = Ok tt) /\
  probe_all env_of netselect st =
    {| netselect_scored := netselect_scored st;
       printed := printed st ++ privilege_log netselect |} /\
  (netselect_scored st = [] ->
   fetch env_of fetches netselect st =
     (Written [],
      {| netselect_scored := [];
         printed := printed st ++ privilege_log netselect |})).
Proof.
  intros Hf H. split; [|split].
  - intros url Hin. destruct (H url Hin) as [He Hm].
    destruct (re_search url) as [d|] eqn:Hd.
    2:{ exfalso. apply re_search_none in Hd. contradiction. }
    rewrite (net_select_socket_error _ _ d st PermissionError He eq_refl Hd).
    reflexivity.
  - apply probe_all_without_privilege. exact H.
  - intros Hempty. unfold fetch.
    assert (((1 <=? fetches) && (fetches <? 11)) = true) as ->.
    { apply andb_true_iff. split; [apply Z.leb_le|apply Z.ltb_lt]; lia. }
    rewrite (probe_all_without_privilege env_of netselect H st).
    cbn [netselect_scored printed]. rewrite Hempty. reflexivity.
Qed.

Lemma raw_socket_failure_witness :
  1 <= 3 <= 10 /\
  fetch (fun _ => no_privilege_env) 3 ["http://m1"; "http://m2"]%string
    empty_state
  = (Written [],
     {| netselect_scored := [];
        printed := [error_line PermissionError "m1"; url_line "http://m1";
                    error_line PermissionError "m2"; url_line "http://m2"] |}).
Proof.
  split; [lia|].
  refine (proj2 (proj2 (raw_socket_failure_is_caught_per_mirror
            (fun _ => no_privilege_env) 3 ["http://m1"; "http://m2"]%string
            empty_state _ _)) eq_refl).
  - lia.
  - intros url [<- | [<- | []]]; (split; [reflexivity|]).
    + apply re_search_some with (d := "m1"%string). reflexivity.
    + apply re_search_some with (d := "m2"%string). reflexivity.
Defined.

(** C6 (as stated) fails: without the privilege to open a raw socket,
    the worker of a mirror returns normally after printing the error,
    and the run over two mirrors is not aborted; it ends by writing a
    sources file with no mirror, after one report per mirror. *)
Lemma no_privilege_run_is_not_aborted :
  net_select no_privilege_env "http://m1" empty_state
  = (Ok tt,
     {| netselect_scored := [];
        printed := [error_line PermissionError "m1"; url_line "http://m1"] |})
  /\
  fetch (fun _ => no_privilege_env) 3 ["http://m1"; "http://m2"]%string
    empty_state
  = (Written [],
     {| netselect_scored := [];
        printed := [error_line PermissionError "m1"; url_line "http://m1";
                    error_line PermissionError "m2"; url_line "http://m2"] |})
  /\
  fst (fetch (fun _ => no_privilege_env) 3 ["http://m1"; "http://m2"]%string
         empty_state)
  <> Failed PermissionError.
Proof.
  split; [|split]; vm_compute; (reflexivity || discriminate).
Qed.

(** ** The receive loop of ping *)

Lemma bytes_eqb_eq (a b : bytes) : bytes_eqb a b = true <-> a = b.
Proof.
  revert b. induction a as [|x a IH]; intros [|y b]; simpl;
    try (split; (discriminate || reflexivity)).
  rewrite andb_true_iff, IH. split.
  - intros [Hxy ->]. apply Byte.byte_dec_bl in Hxy. subst. reflexivity.
  - intros H. injection H as -> ->. split; [|reflexivity].
    apply Byte.byte_dec_lb. reflexivity.
Qed.

Lemma too_short_false (data : bytes) :
  too_short data = false <->
  20 <= len data /\ declared_length data <= len data.
Proof.
  unfold too_short. rewrite orb_false_iff, !Z.ltb_ge. reflexivity.
Qed.

Lemma not_rejected_accepted (payload d : bytes) :
  too_short (recv d) = false ->
  bytes_eqb (skipn 20 (recv d)) (echo_reply payload) = true ->
  accepted payload d.
Proof.
  intros Hs He. apply too_short_false in Hs. apply bytes_eqb_eq in He.
  unfold accepted. tauto.
Qed.

Lemma accepted_not_rejected (payload d : bytes) :
  accepted payload d -> ~ rejected payload d.
Proof.
  intros (H20 & Hdecl & Heq) [Hs | Hne].
  - assert (too_short (recv d) = false) as E by (apply too_short_false; auto).
    congruence.
  - contradiction.
Qed.

Section PingLoop.

Variables (cost start timeout : Z) (payload : bytes).

(** A latency comes from an accepted datagram, and every datagram
    before it was rejected. *)
Lemma ping_loop_some (queue : list (Z * bytes)) :
  forall now blocked elapsed,
    answer (ping_loop cost start timeout payload now blocked queue) = Some elapsed ->
    exists before arrival d after,
      queue = before ++ (arrival, d) :: after /\
      accepted payload d /\
      Forall (fun ad => rejected payload (snd ad)) before.
Proof.
  induction queue as [|[arrival d] rest IH]; intros now blocked elapsed;
    cbn [ping_loop].
  - discriminate.
  - destruct (arrival <=? now + Z.max 0 (start + timeout - now));
      [|discriminate].
    destruct (too_short (recv d)) eqn:Hs.
    + intros H. destruct (IH _ _ _ H) as (before & a & d' & after & -> & Ha & Hb).
      exists ((arrival, d) :: before), a, d', after.
      split; [reflexivity|]. split; [exact Ha|].
      constructor; [left; exact Hs|exact Hb].
    + destruct (bytes_eqb (skipn 20 (recv d)) (echo_reply payload)) eqn:He.
      * intros _. exists [], arrival, d, rest.
        split; [reflexivity|]. split; [|constructor].
        apply not_rejected_accepted; assumption.
      * intros H. destruct (IH _ _ _ H) as (before & a & d' & after & -> & Ha & Hb).
        exists ((arrival, d) :: before), a, d', after.
        split; [reflexivity|]. split; [exact Ha|].
        constructor; [|exact Hb]. right. cbn [snd]. intros E.
        apply bytes_eqb_eq in E. congruence.
Qed.

(** Without an accepted datagram the loop ends with [None]. *)
Lemma ping_loop_none (queue : list (Z * bytes)) :
  Forall (fun ad => rejected payload (snd ad)) queue ->
  forall now blocked, answer (ping_loop cost start timeout payload now blocked queue) = None.
Proof.
  intros H now blocked.
  destruct (answer (ping_loop cost start timeout payload now blocked queue)) as [elapsed|] eqn:E;
    [|reflexivity].
  exfalso.
  destruct (ping_loop_some _ _ _ _ E) as (before & a & d & after & -> & Ha & _).
  apply Forall_app in H. destruct H as [_ H].
  apply Forall_inv in H. apply (accepted_not_rejected _ _ Ha H).
Qed.

Hypothesis cost_nonneg : 0 <= cost.

(** The time spent blocked in [select] never exceeds what is left of
    the budget when the loop is entered. *)
Lemma ping_loop_waited (queue : list (Z * bytes)) :
  forall now blocked,
    blocked <= waited (ping_loop cost start timeout payload now blocked queue)
    <= blocked + Z.max 0 (start + timeout - now).
Proof.
  induction queue as [|[arrival d] rest IH]; intros now blocked;
    cbn [ping_loop].
  - cbn [waited]. lia.
  - destruct (Z.leb_spec arrival (now + Z.max 0 (start + timeout - now)))
      as [Hle|Hgt]; [|cbn [waited]; lia].
    pose proof (IH (Z.max now arrival + cost)
                   (blocked + (Z.max now arrival - now))) as IH'.
    destruct (too_short (recv d)); [lia|].
    destruct (bytes_eqb (skipn 20 (recv d)) (echo_reply payload));
      [cbn [waited]; lia | lia].
Qed.

(** The loop returns no later than the deadline plus the time spent
    on the datagrams received. *)
Lemma ping_loop_finished (queue : list (Z * bytes)) :
  forall now blocked,
    finished (ping_loop cost start timeout payload now blocked queue)
    <= Z.max now (start + timeout) + cost * Z.of_nat (List.length queue).
Proof.
  induction queue as [|[arrival d] rest IH]; intros now blocked;
    cbn [ping_loop].
  - cbn [finished List.length]. lia.
  - cbn [List.length]. rewrite Nat2Z.inj_succ.
    destruct (Z.leb_spec arrival (now + Z.max 0 (start + timeout - now)))
      as [Hle|Hgt]; [|cbn [finished]; nia].
    pose proof (IH (Z.max now arrival + cost)
                   (blocked + (Z.max now arrival - now))) as IH'.
    destruct (too_short (recv d)); [nia|].
    destruct (bytes_eqb (skipn 20 (recv d)) (echo_reply payload));
      [cbn [finished]; nia | nia].
Qed.


End PingLoop.

(** ** Identifier, sequence and data are read back from the reply *)

Lemma pack_be_H_inj (a b : Z) :
  0 <= a < 65536 -> 0 <= b < 65536 -> pack_be_H a = pack_be_H b -> a = b.
Proof.
  intros Ha Hb H. unfold pack_be_H in H.
  injection H as Hhi Hlo.
  apply (f_equal byte_val) in Hhi, Hlo.
  rewrite !byte_val_of_Z in Hhi, Hlo.
  rewrite !land_ones8, !Z.mod_mod in Hlo by lia.
  rewrite !Z.shiftr_div_pow2 in Hhi by lia. change (2 ^ 8) with 256 in Hhi.
  assert (forall v, 0 <= v < 65536 -> v / 256 mod 256 = v / 256) as Hsmall.
  { intros v Hv. apply Z.mod_small. split; [apply Z.div_pos; lia|].
    apply Z.div_lt_upper_bound; lia. }
  rewrite !Hsmall in Hhi by assumption.
  pose proof (Z.div_mod a 256 ltac:(lia)).
  pose proof (Z.div_mod b 256 ltac:(lia)).
  lia.
Qed.

Lemma pack_be_HH_some (a b : Z) (h : bytes) :
  pack_be_HH a b = Some h ->
  0 <= a < 65536 /\ 0 <= b < 65536 /\ h = pack_be_H a ++ pack_be_H b.
Proof.
  unfold pack_be_HH, in_H_range. intros H.
  destruct ((0 <=? a) && (a <? 65536)) eqn:Ea; [|discriminate].
  destruct ((0 <=? b) && (b <? 65536)) eqn:Eb; [|discriminate].
  apply andb_true_iff in Ea, Eb.
  rewrite Z.leb_le, Z.ltb_lt in Ea, Eb.
  injection H as <-. auto.
Qed.

Lemma header_data_inj (a b a' b' : Z) (h h' data data' : bytes) :
  pack_be_HH a b = Some h -> pack_be_HH a' b' = Some h' ->
  h ++ data = h' ++ data' ->
  a = a' /\ b = b' /\ data = data'.
Proof.
  intros H H' E.
  apply pack_be_HH_some in H, H'.
  destruct H as (Ha & Hb & ->). destruct H' as (Ha' & Hb' & ->).
  unfold pack_be_H in E. cbn [app] in E.
  injection E as E1 E2 E3 E4 E5.
  split; [|split].
  - apply pack_be_H_inj; try assumption. unfold pack_be_H. congruence.
  - apply pack_be_H_inj; try assumption. unfold pack_be_H. congruence.
  - exact E5.
Qed.

Lemma echo_reply_payload (p : bytes) : skipn 4 (echo_reply p) = p.
Proof.
  unfold echo_reply, chk, pack_le_H.
  generalize (chk_value ([x00; x00; x00; x00] ++ p)). intros c.
  reflexivity.
Qed.

Lemma echo_reply_inj (p q : bytes) : echo_reply p = echo_reply q -> p = q.
Proof.
  intros H. apply (f_equal (skipn 4)) in H.
  rewrite !echo_reply_payload in H. exact H.
Qed.

(** ** ping *)

Lemma ping_run_ok (env : net_env) (addr : string) (timeout number : Z)
    (data : bytes) (p : probe) :
  ping_run env addr timeout number data = Ok p ->
  exists header,
    socket_error env = None /\
    pack_be_HH (randrange16 env) number = Some header /\
    connect_error env addr = None /\
    sendall_error env = None /\
    p = ping_loop (recv_cost env) (start_time env) timeout (header ++ data)
          (start_time env) 0 (inbox env).
Proof.
  unfold ping_run.
  destruct (socket_error env); [discriminate|].
  destruct (pack_be_HH (randrange16 env) number) as [header|]; [|discriminate].
  destruct (connect_error env addr); [discriminate|].
  destruct (sendall_error env); [discriminate|].
  intros H. injection H as <-. exists header. auto.
Qed.

Lemma ping_ok (env : net_env) (addr : string) (timeout number : Z)
    (data : bytes) (res : option Z) :
  ping env addr timeout number data = Ok res ->
  exists p, ping_run env addr timeout number data = Ok p /\ answer p = res.
Proof.
  unfold ping. destruct (ping_run env addr timeout number data) as [p|e];
    [|discriminate].
  intros H. injection H as <-. exists p. auto.
Qed.

(** C3: [ping] returns a latency only when a received datagram equals,
    from offset 20 on, the expected echo reply built from the same
    identifier, sequence and data (type 0, code 0, checksum recomputed).
    That datagram has at least 20 bytes and at least the length declared
    in its IP header, and every datagram before it was skipped as too
    short or did not match. A datagram that carries the reply for another
    identifier, sequence or data is not the one accepted, and when every
    datagram is too short or differs, the result is [None]. *)
Theorem ping_latency_only_on_exact_reply
    (env : net_env) (addr : string) (timeout number : Z) (data : bytes)
    (res : option Z) :
  ping env addr timeout number data = Ok res ->
  exists header,
    pack_be_HH (randrange16 env) number = Some header /\
    (forall elapsed, res = Some elapsed ->
       exists before arrival d after,
         inbox env = before ++ (arrival, d) :: after /\
         20 <= len (recv d) /\
         declared_length (recv d) <= len (recv d) /\
         skipn 20 (recv d) = echo_reply (header ++ data) /\
         Forall (fun ad => rejected (header ++ data) (snd ad)) before /\
         (forall ident' number' data' header',
            pack_be_HH ident' number' = Some header' ->
            skipn 20 (recv d) = echo_reply (header' ++ data') ->
            ident' = randrange16 env /\ number' = number /\ data' = data)) /\
    (Forall (fun ad => rejected (header ++ data) (snd ad)) (inbox env) ->
     res = None).
Proof.
  intros H.
  destruct (ping_ok _ _ _ _ _ _ H) as (p & Hrun & Hres).
  destruct (ping_run_ok _ _ _ _ _ _ Hrun) as (header & _ & Hpack & _ & _ & Hp).
  exists header. split; [exact Hpack|]. subst p res. split.
  - intros elapsed He.
    destruct (ping_loop_some _ _ _ _ _ _ _ _ He)
      as (before & arrival & d & after & Hq & (H20 & Hdecl & Heq) & Hbefore).
    exists before, arrival, d, after.
    repeat (split; [assumption|]).
    intros ident' number' data' header' Hpack' Heq'.
    rewrite Heq in Heq'. apply echo_reply_inj in Heq'.
    destruct (header_data_inj _ _ _ _ _ _ _ _ Hpack Hpack' Heq') as (-> & -> & ->).
    auto.
  - intros Hall. apply ping_loop_none. exact Hall.
Qed.

Lemma ping_latency_witness :
  ping (reply_env 9000) "m1" default_timeout 1 [] = Ok (Some 9000) /\
  exists header,
    pack_be_HH (randrange16 (reply_env 9000)) 1 = Some header /\
    skipn 20 (recv (reply_datagram 7 1 [])) = echo_reply (header ++ []).
Proof.
  assert (ping (reply_env 9000) "m1" default_timeout 1 [] = Ok (Some 9000)) as H
    by (vm_compute; reflexivity).
  split; [exact H|].
  destruct (ping_latency_only_on_exact_reply _ _ _ _ _ _ H)
    as (header & Hpack & Hsome & _).
  exists header. split; [exact Hpack|].
  vm_compute in Hpack. injection Hpack as <-. vm_compute. reflexivity.
Defined.


(** ** The latency field *)

Lemma in_millis_range (ms : Z) : 0 <= ms <= 999 -> In ms millis_range.
Proof.
  intros H. unfold millis_range.
  replace ms with (Z.of_nat (Z.to_nat ms)) by lia.
  apply in_map, in_seq. lia.
Qed.

(** The field has three characters from 10 to 999, and one below 10. *)
Lemma latency_field_width (ms : Z) :
  0 <= ms <= 999 ->
  String.length (latency_field ms) = if ms <? 10 then 1%nat else 3%nat.
Proof.
  intros H. apply in_millis_range in H.
  assert (forallb
            (fun ms => Nat.eqb (String.length (latency_field ms))
                               (if ms <? 10 then 1%nat else 3%nat))
            millis_range = true) as Hall by (vm_compute; reflexivity).
  rewrite forallb_forall in Hall. apply Nat.eqb_eq. apply Hall. exact H.
Qed.

Lemma compare_app_lt (p q u v : string) :
  String.length p = String.length q ->
  String.compare p q = Lt ->
  String.compare (p ++ u) (q ++ v) = Lt.
Proof.
  revert q. induction p as [|a p IH]; intros [|b q] Hlen Hlt;
    simpl in *; try discriminate.
  destruct (Ascii.compare a b); try assumption.
  apply IH; [lia|exact Hlt].
Qed.

(** From 10 to 999 the order of the entries is the order of the
    latencies. *)
Lemma padded_entries_ordered (a b : Z) (u v : string) :
  10 <= a -> a < b -> b <= 999 ->
  String.ltb (score_entry a u) (score_entry b v) = true.
Proof.
  intros Ha Hab Hb.
  assert (forallb
            (fun a => forallb
               (fun b =>
                  if (10 <=? a) && (a <? b)
                  then match String.compare (latency_field a) (latency_field b)
                       with Lt => true | _ => false end
                  else true)
               millis_range)
            millis_range = true) as Hall by (vm_compute; reflexivity).
  rewrite forallb_forall in Hall.
  specialize (Hall a (in_millis_range a ltac:(lia))).
  rewrite forallb_forall in Hall.
  specialize (Hall b (in_millis_range b ltac:(lia))).
  assert ((10 <=? a) && (a <? b) = true) as E.
  { apply andb_true_iff. split; [apply Z.leb_le|apply Z.ltb_lt]; lia. }
  rewrite E in Hall.
  unfold String.ltb, score_entry. fold (latency_field a) (latency_field b).
  rewrite compare_app_lt; [reflexivity| |].
  - rewrite !latency_field_width by lia.
    destruct (Z.ltb_spec a 10), (Z.ltb_spec b 10); (reflexivity || lia).
  - destruct (String.compare (latency_field a) (latency_field b));
      (reflexivity || discriminate).
Qed.

(** C2: the claim fails on the code for latencies below 10 ms. The
    statement [res == '00'+res] compares and drops the result, so a
    one-digit latency stays one character wide: a reply after 9 ms is
    recorded as "9 http://a", and sorting puts the 10 ms entry
    "010 http://b" before it. *)
Theorem single_digit_latency_is_not_padded :
  score_entry 9 "http://a" = "9 http://a"%string /\
  score_entry 10 "http://b" = "010 http://b"%string /\
  netselect_scored (snd (net_select (reply_env 9000) "http://a" empty_state))
    = ["9 http://a"%string] /\
  String.length (latency_field 9) = 1%nat /\
  String.ltb (score_entry 10 "http://b") (score_entry 9 "http://a") = true /\
  sort [score_entry 9 "http://a"; score_entry 10 "http://b"]
    = ["010 http://b"%string; "9 http://a"%string].
Proof.
  repeat split; vm_compute; reflexivity.
Qed.

(** ** Sorting *)

Lemma insert_sorted_perm (x : string) (l : list string) :
  Permutation (insert_sorted x l) (x :: l).
Proof.
  induction l as [|y l IH]; simpl.
  - apply Permutation_refl.
  - destruct (String.leb x y).
    + apply Permutation_refl.
    + apply perm_trans with (y :: x :: l).
      * apply perm_skip. exact IH.
      * apply perm_swap.
Qed.

Lemma sort_perm (l : list string) : Permutation (sort l) l.
Proof.
  induction l as [|x l IH]; simpl.
  - apply perm_nil.
  - apply perm_trans with (x :: sort l).
    + apply insert_sorted_perm.
    + apply perm_skip. exact IH.
Qed.

Lemma insert_sorted_hd (x y : string) (l : list string) :
  ascending y x -> HdRel ascending y l -> HdRel ascending y (insert_sorted x l).
Proof.
  intros Hyx Hl. destruct l as [|z l]; simpl.
  - constructor. exact Hyx.
  - destruct (String.leb x z); constructor.
    + exact Hyx.
    + inversion Hl. assumption.
Qed.

Lemma insert_sorted_sorted (x : string) (l : list string) :
  Sorted ascending l -> Sorted ascending (insert_sorted x l).
Proof.
  induction 1 as [|y l Hs IH Hhd]; simpl.
  - constructor; constructor.
  - destruct (String.leb x y) eqn:E.
    + constructor; [constructor; assumption|]. constructor. exact E.
    + constructor; [exact IH|].
      apply insert_sorted_hd; [|exact Hhd].
      destruct (String.leb_total x y) as [H|H]; [congruence|exact H].
Qed.

Lemma sort_sorted (l : list string) : Sorted ascending (sort l).
Proof.
  induction l as [|x l IH]; simpl.
  - constructor.
  - apply insert_sorted_sorted. exact IH.
Qed.

(** ** Back from an entry to its URL *)

Lemma from_first_h_app (res s : string) :
  from_first_h res = None ->
  from_first_h (res ++ s) = from_first_h s.
Proof.
  induction res as [|c res IH]; simpl.
  - reflexivity.
  - destruct (Ascii.eqb c "h"); [discriminate|]. exact IH.
Qed.

Lemma from_first_h_entry (r : string * string) :
  from_first_h (fst r) = None -> starts_with_h (snd r) = true ->
  from_first_h (entry_of r) = Some (snd r).
Proof.
  intros Hres Hurl. unfold entry_of.
  rewrite from_first_h_app by exact Hres.
  destruct (snd r) as [|c t]; [discriminate|].
  simpl in *. rewrite Hurl. reflexivity.
Qed.

Lemma digits_have_no_h (d : Decimal.uint) :
  from_first_h (NilEmpty.string_of_uint d) = None.
Proof. induction d; simpl; assumption || reflexivity. Qed.

Lemma str_has_no_h (n : Z) : from_first_h (str n) = None.
Proof.
  unfold str, NilZero.string_of_int.
  destruct (Z.to_int n) as [d|d]; simpl.
  - destruct d; try reflexivity; simpl; apply digits_have_no_h.
  - destruct d; try reflexivity; simpl; apply digits_have_no_h.
Qed.

(** The field written by [net_select] never contains an [h], so the
    first [h] of an entry is in its URL. *)
Lemma latency_field_has_no_h (ms : Z) : from_first_h (latency_field ms) = None.
Proof.
  unfold latency_field, pad.
  pose proof (str_has_no_h ms) as H.
  destruct (Nat.eqb (String.length (str ms)) 2).
  - destruct (Nat.eqb _ 1); simpl; exact H.
  - destruct (Nat.eqb _ 1); exact H.
Qed.

Lemma select_mirrors_firstn (scored : list (string * string)) :
  Forall (fun r => from_first_h (fst r) = None /\ starts_with_h (snd r) = true)
    scored ->
  forall num fetches,
    num < fetches ->
    select_mirrors num fetches (map entry_of scored)
    = Ok (map snd (firstn (Z.to_nat (fetches - num)) scored)).
Proof.
  induction 1 as [|r scored [Hres Hurl] _ IH]; intros num fetches Hlt.
  - simpl. rewrite firstn_nil. reflexivity.
  - cbn [map select_mirrors].
    rewrite (from_first_h_entry r Hres Hurl).
    replace (Z.to_nat (fetches - num))
      with (S (Z.to_nat (fetches - (num + 1)))) by lia.
    rewrite firstn_cons. cbn [map].
    destruct (Z.eqb_spec (num + 1) fetches) as [E|E].
    + replace (fetches - (num + 1)) with 0 by lia. reflexivity.
    + rewrite IH by lia. reflexivity.
Qed.

Lemma sorted_pairs (results : list (string * string)) :
  exists ranked,
    sort (map entry_of results) = map entry_of ranked /\
    Permutation ranked results.
Proof.
  destruct (Permutation_map_inv entry_of results
              (sort_perm (map entry_of results))) as (ranked & E & P).
  exists ranked. split; [exact E|]. apply Permutation_sym. exact P.
Qed.

(** C7 (as amended): with [fetches] in 1..10, [fetch] sorts the collected
    entries in ascending order of the whole string and writes the first
    [fetches] of them, each cut back to its URL by dropping what comes
    before the first [h]; that is the originating URL whenever the URL
    begins with [h] (as in [http://]) and the latency field has no [h]. *)
Theorem fetch_writes_first_sorted_urls
    (env_of : string -> net_env) (fetches : Z) (netselect : list string)
    (st : state) (results : list (string * string)) :
  1 <= fetches <= 10 ->
  netselect_scored (probe_all env_of netselect st) = map entry_of results ->
  Forall (fun r => from_first_h (fst r) = None /\ starts_with_h (snd r) = true)
    results ->
  exists ranked,
    Permutation ranked results /\
    Sorted ascending (map entry_of ranked) /\
    netselect_scored (snd (fetch env_of fetches netselect st))
      = map entry_of ranked /\
    fst (fetch env_of fetches netselect st)
      = Written (map snd (firstn (Z.to_nat fetches) ranked)).
Proof.
  intros Hf Hscored Hall.
  destruct (sorted_pairs results) as (ranked & Hsort & Hperm).
  exists ranked. split; [exact Hperm|].
  split; [rewrite <- Hsort; apply sort_sorted|].
  assert (Forall (fun r => from_first_h (fst r) = None /\
                           starts_with_h (snd r) = true) ranked) as Hranked.
  { rewrite Forall_forall in *. intros r Hr. apply Hall.
    apply (Permutation_in _ Hperm Hr). }
  unfold fetch.
  assert (((1 <=? fetches) && (fetches <? 11)) = true) as ->.
  { apply andb_true_iff. split; [apply Z.leb_le|apply Z.ltb_lt]; lia. }
  cbn [netselect_scored]. rewrite Hscored, Hsort.
  rewrite (select_mirrors_firstn ranked Hranked 0 fetches) by lia.
  rewrite Z.sub_0_r. split; reflexivity.
Qed.

Lemma fetch_writes_first_sorted_urls_witness :
  1 <= 2 <= 10 /\
  netselect_scored (probe_all (fun _ => quiet_env) [] http_state)
    = map entry_of http_results /\
  exists ranked,
    Permutation ranked http_results /\
    fst (fetch (fun _ => quiet_env) 2 [] http_state)
      = Written (map snd (firstn (Z.to_nat 2) ranked)).
Proof.
  split; [lia|]. split; [reflexivity|].
  destruct (fetch_writes_first_sorted_urls (fun _ => quiet_env) 2 []
              http_state http_results) as (ranked & Hperm & _ & _ & Hout).
  - lia.
  - reflexivity.
  - repeat constructor.
  - exists ranked. split; [exact Hperm|exact Hout].
Defined.

(** The example of the specification with URLs that begin with [http://]:
    the two fastest mirrors, fastest first. *)
Example fetch_example_http :
  fetch (fun _ => quiet_env) 2 [] http_state
  = (Written ["http://a"; "http://b"]%string,
     {| netselect_scored :=
          ["005 http://a"; "010 http://b"; "999 http://c"]%string;
        printed := [] |}).
Proof. vm_compute. reflexivity. Qed.

(** C7 (as stated) fails on its own example: the entries "010 b",
    "005 a" and "999 c" sort to "005 a", "010 b", "999 c", and
    [line.index('h')] raises [ValueError] on "005 a", which has no [h];
    the output is not the URLs a and b. *)
Lemma fetch_fails_on_url_without_h :
  sort (netselect_scored letter_state) = ["005 a"; "010 b"; "999 c"]%string /\
  fst (fetch (fun _ => quiet_env) 2 [] letter_state) = Failed ValueError /\
  fst (fetch (fun _ => quiet_env) 2 [] letter_state)
    <> Written ["a"; "b"]%string.
Proof.
  split; [|split]; vm_compute; (reflexivity || discriminate).
Qed.

(** ** The collection across runs *)

Lemma net_select_appends (env : net_env) (host : string) (st : state) :
  exists l,
    (List.length l <= 1)%nat /\
    netselect_scored (snd (net_select env host st)) = netselect_scored st ++ l.
Proof.
  unfold net_select.
  destruct (match re_search host with
            | Some d => ping env d default_timeout 1 []
            | None => Raise NameError
            end) as [res|e].
  - destruct res as [elapsed|]; cbn [truthy].
    + destruct (negb (elapsed =? 0)); cbn [snd netselect_scored].
      * eexists. split; [|reflexivity]. simpl. lia.
      * exists []. rewrite app_nil_r. split; [simpl; lia|reflexivity].
    + exists []. rewrite app_nil_r. split; [simpl; lia|reflexivity].
  - exists []. rewrite app_nil_r. split; [simpl; lia|].
    destruct (caught e); [|reflexivity].
    destruct (re_search host); reflexivity.
Qed.

Lemma probe_all_appends (env_of : string -> net_env) (netselect : list string) :
  forall st,
  exists l,
    (List.length l <= List.length netselect)%nat /\
    netselect_scored (probe_all env_of netselect st) = netselect_scored st ++ l.
Proof.
  induction netselect as [|url rest IH]; intros st.
  - exists []. rewrite app_nil_r. split; [simpl; lia|reflexivity].
  - rewrite probe_all_cons.
    destruct (IH (run_thread env_of st url)) as (l2 & Hl2 & E2).
    destruct (net_select_appends (env_of url) url st) as (l1 & Hl1 & E1).
    exists (l1 ++ l2). split.
    + rewrite length_app. simpl. lia.
    + rewrite E2. unfold run_thread. rewrite E1, app_assoc. reflexivity.
Qed.

Lemma fetch_keeps_collection (env_of : string -> net_env) (fetches : Z)
    (netselect : list string) (st : state) :
  exists appended,
    (List.length appended <= List.length netselect)%nat /\
    Permutation (netselect_scored (snd (fetch env_of fetches netselect st)))
      (netselect_scored st ++ appended).
Proof.
  unfold fetch. destruct ((1 <=? fetches) && (fetches <? 11)).
  - destruct (probe_all_appends env_of netselect st) as (l & Hl & E).
    exists l. split; [exact Hl|].
    destruct (select_mirrors 0 fetches _); cbn [snd netselect_scored];
      rewrite <- E; apply sort_perm.
  - exists []. rewrite app_nil_r. split; [simpl; lia|apply Permutation_refl].
Qed.

(** C9 (as stated) fails: after a first run that recorded "020 http://a",
    a second run that probes only http://b (50 ms) starts from that
    entry and writes http://a, while the same run from an empty
    collection writes http://b. *)
Lemma second_run_ranks_first_runs_results :
  let first := fetch (fun _ => reply_env 20000) 1 ["http://a"%string] empty_state in
  netselect_scored (snd first) = ["020 http://a"%string] /\
  fst (fetch (fun _ => reply_env 50000) 1 ["http://b"%string] (snd first))
    = Written ["http://a"%string] /\
  fst (fetch (fun _ => reply_env 50000) 1 ["http://b"%string] empty_state)
    = Written ["http://b"%string].
Proof.
  vm_compute. repeat split; reflexivity.
Qed.


(** * Further properties of the checksum *)

Lemma le_words_pad_odd (data : bytes) :
  Nat.odd (List.length data) = true ->
  sum_Z (le_words (data ++ [x00])) = sum_Z (le_words data).
Proof.
  induction data as [| b | b0 b1 t IH] using bytes_pair_ind; intros H.
  - discriminate H.
  - cbn [app le_words sum_Z]. change (byte_val x00) with 0. lia.
  - cbn [app le_words sum_Z]. rewrite IH; [reflexivity|].
    cbn [List.length] in H. rewrite Nat.odd_succ, Nat.even_succ in H. exact H.
Qed.

(** An odd-length input is summed as if it were padded with one zero
    byte: padding it explicitly leaves the checksum unchanged. *)
Theorem chk_odd_length_is_zero_padded (data : bytes) :
  Nat.odd (List.length data) = true ->
  chk (data ++ [x00]) = chk data.
Proof.
  intros H. unfold chk. rewrite !chk_value_norm, le_words_pad_odd by exact H.
  reflexivity.
Qed.

Lemma chk_odd_length_witness :
  Nat.odd (List.length [x08; x00; x12]) = true /\
  chk ([x08; x00; x12] ++ [x00]) = chk [x08; x00; x12].
Proof.
  split; [reflexivity|].
  apply (chk_odd_length_is_zero_padded [x08; x00; x12]). reflexivity.
Defined.

Lemma generator_sum_app (l1 l2 : bytes) :
  forall i,
    sum_Z (map chk_term (enumerate_from i (l1 ++ l2)))
    = sum_Z (map chk_term (enumerate_from i l1))
      + sum_Z (map chk_term (enumerate_from (i + len l1) l2)).
Proof.
  unfold len. induction l1 as [|x l1 IH]; intros i.
  - cbn [app enumerate_from map sum_Z List.length].
    replace (i + Z.of_nat 0) with i by lia. lia.
  - cbn [app enumerate_from map sum_Z List.length]. rewrite IH.
    replace (i + 1 + Z.of_nat (List.length l1))
      with (i + Z.of_nat (S (List.length l1))) by lia.
    lia.
Qed.

(** The weight of the byte at index [i]: 1 at even indices, 256 at odd
    ones. *)
Lemma chk_term_weight (i : Z) :
  exists w, (w = 1 \/ w = 256) /\
            forall x, chk_term (i, x) = w * byte_val x.
Proof.
  destruct (Z.eqb_spec (i mod 2) 0) as [E|E].
  - exists 1. split; [left; reflexivity|]. intros x.
    rewrite chk_term_even by exact E. lia.
  - exists 256. split; [right; reflexivity|]. intros x.
    apply chk_term_odd.
    pose proof (Z.mod_pos_bound i 2 ltac:(lia)). lia.
Qed.

Lemma byte_val_inj (a b : byte) : byte_val a = byte_val b -> a = b.
Proof.
  intros H. rewrite <- (byte_of_Z_val a), <- (byte_of_Z_val b), H. reflexivity.
Qed.

Lemma pack_le_H_inj (a b : Z) :
  0 <= a <= 65535 -> 0 <= b <= 65535 -> pack_le_H a = pack_le_H b -> a = b.
Proof.
  intros Ha Hb H. apply pack_be_H_inj; try lia.
  unfold pack_le_H in H. unfold pack_be_H.
  injection H as Hlo Hhi. rewrite Hlo, Hhi. reflexivity.
Qed.

(** Changing any single byte of an input of at most 131074 bytes
    changes the checksum. *)
Theorem chk_detects_single_byte_change (pre suf : bytes) (b b' : byte) :
  len (pre ++ b :: suf) <= 131074 ->
  b <> b' ->
  chk (pre ++ b :: suf) <> chk (pre ++ b' :: suf).
Proof.
  intros Hlen Hne Heq.
  assert (len (pre ++ b' :: suf) <= 131074) as Hlen'.
  { unfold len in *. rewrite length_app in *. cbn [List.length] in *. lia. }
  destruct (sums_fit_32_bits _ Hlen) as [Hs _].
  destruct (sums_fit_32_bits _ Hlen') as [Hs' _].
  unfold chk in Heq.
  apply pack_le_H_inj in Heq; try apply chk_value_range.
  rewrite !chk_value_norm in Heq.
  rewrite !Z.mod_small in Heq by lia.
  destruct (oc_norm_spec _ (proj1 Hs)) as (Hr & _ & k & Hk).
  destruct (oc_norm_spec _ (proj1 Hs')) as (Hr' & _ & k' & Hk').
  rewrite <- !(generator_sum_from _ 0 eq_refl) in *.
  rewrite !generator_sum_app in *.
  cbn [enumerate_from map sum_Z] in *.
  destruct (chk_term_weight (0 + len pre)) as (w & Hw & Hterm).
  rewrite !Hterm in *.
  pose proof (byte_val_range b). pose proof (byte_val_range b').
  assert (byte_val b = byte_val b') as E by (destruct Hw; subst w; lia).
  apply Hne, byte_val_inj, E.
Qed.

Lemma chk_detects_single_byte_change_witness :
  len ([x08; x00] ++ x12 :: [x34]) <= 131074 /\
  x12 <> x13 /\
  chk ([x08; x00] ++ x12 :: [x34]) <> chk ([x08; x00] ++ x13 :: [x34]).
Proof.
  assert (len ([x08; x00] ++ x12 :: [x34]) <= 131074) as H1
    by (vm_compute; discriminate).
  assert (x12 <> x13) as H2 by discriminate.
  split; [exact H1|]. split; [exact H2|].
  apply (chk_detects_single_byte_change [x08; x00] [x34] x12 x13 H1 H2).
Defined.

(** * Further properties of ping *)

Lemma ping_loop_elapsed (cost start timeout : Z) (payload : bytes)
    (queue : list (Z * bytes)) :
  0 <= cost ->
  forall now blocked elapsed,
    start <= now ->
    answer (ping_loop cost start timeout payload now blocked queue)
      = Some elapsed ->
    elapsed = finished (ping_loop cost start timeout payload now blocked queue)
              - start /\
    cost <= elapsed.
Proof.
  intros Hcost.
  induction queue as [|[arrival d] rest IH]; intros now blocked elapsed Hnow;
    cbn [ping_loop].
  - discriminate.
  - destruct (arrival <=? now + Z.max 0 (start + timeout - now));
      [|discriminate].
    destruct (too_short (recv d)); [apply IH; lia|].
    destruct (bytes_eqb (skipn 20 (recv d)) (echo_reply payload));
      [|apply IH; lia].
    cbn [answer finished]. intros H. injection H as <-. lia.
Qed.

(** A latency returned by [ping] is at most the time-out plus the time
    spent on the datagrams received, and the time blocked in [select]
    is at most the time-out. With no handling time a returned latency
    never exceeds the time-out. *)
Theorem ping_latency_within_timeout
    (env : net_env) (addr : string) (timeout number : Z) (data : bytes)
    (p : probe) (elapsed : Z) :
  0 <= recv_cost env ->
  ping_run env addr timeout number data = Ok p ->
  answer p = Some elapsed ->
  recv_cost env <= elapsed /\
  elapsed <= Z.max 0 timeout
             + recv_cost env * Z.of_nat (List.length (inbox env)) /\
  0 <= waited p <= Z.max 0 timeout.
Proof.
  intros Hcost Hrun Hans.
  destruct (ping_run_ok _ _ _ _ _ _ Hrun) as (header & _ & _ & _ & _ & ->).
  destruct (ping_loop_elapsed _ _ _ _ _ Hcost _ _ _ (Z.le_refl _) Hans)
    as [He Hlow].
  pose proof (ping_loop_finished (recv_cost env) (start_time env) timeout
                (header ++ data) Hcost (inbox env) (start_time env) 0).
  pose proof (ping_loop_waited (recv_cost env) (start_time env) timeout
                (header ++ data) Hcost (inbox env) (start_time env) 0).
  lia.
Qed.

Lemma ping_latency_within_timeout_witness :
  0 <= recv_cost (reply_env 9000) /\
  exists p,
    ping_run (reply_env 9000) "m1" default_timeout 1 [] = Ok p /\
    answer p = Some 9000 /\
    9000 <= Z.max 0 default_timeout
            + recv_cost (reply_env 9000)
              * Z.of_nat (List.length (inbox (reply_env 9000))).
Proof.
  split; [vm_compute; discriminate|].
  eexists. split; [vm_compute; reflexivity|]. split; [reflexivity|].
  refine (proj1 (proj2 (ping_latency_within_timeout (reply_env 9000) "m1"
                          default_timeout 1 [] _ 9000 _ _ _))).
  - vm_compute. discriminate.
  - vm_compute. reflexivity.
  - reflexivity.
Defined.

(** * Further properties of net_select *)

Lemma ping_raises_env_error (env : net_env) (addr : string) (timeout : Z)
    (data : bytes) (e : exn) :
  ping env addr timeout 1 data = Raise e ->
  socket_error env = Some e \/ connect_error env addr = Some e \/
  sendall_error env = Some e.
Proof.
  unfold ping, ping_run.
  destruct (socket_error env) as [e1|].
  { intros H. injection H as <-. left. reflexivity. }
  assert (exists h, pack_be_HH (randrange16 env) 1 = Some h) as [h ->].
  { unfold pack_be_HH, in_H_range, randrange16.
    pose proof (Z.mod_pos_bound (rand env) 65536 ltac:(lia)) as Hr.
    assert ((0 <=? rand env mod 65536) && (rand env mod 65536 <? 65536) = true)
      as -> by (apply andb_true_iff; split;
                [apply Z.leb_le|apply Z.ltb_lt]; lia).
    eexists. reflexivity. }
  destruct (connect_error env addr) as [e2|].
  { intros H. injection H as <-. right. left. reflexivity. }
  destruct (sendall_error env) as [e3|].
  { intros H. injection H as <-. right. right. reflexivity. }
  discriminate.
Qed.

(** One bad mirror never brings its worker down: for a host that matches
    the pattern, whatever [OSError] the socket calls raise, [net_select]
    returns normally, and the entries collected so far are kept, in
    order, with at most one entry added after them. *)
Theorem net_select_contains_socket_errors
    (env : net_env) (host : string) (st : state) :
  pattern_matches host ->
  (forall e, socket_error env = Some e -> is_OSError e = true) ->
  (forall addr e, connect_error env addr = Some e -> is_OSError e = true) ->
  (forall e, sendall_error env = Some e -> is_OSError e = true) ->
  fst (net_select env host st) = Ok tt /\
  exists added,
    (List.length added <= 1)%nat /\
    netselect_scored (snd (net_select env host st))
    = netselect_scored st ++ added.
Proof.
  intros Hm Hsock Hconn Hsend. split; [|apply net_select_appends].
  destruct (re_search host) as [d|] eqn:Hd.
  2:{ exfalso. apply re_search_none in Hd. contradiction. }
  unfold net_select. rewrite Hd.
  destruct (ping env d default_timeout 1 []) as [res|e] eqn:Hp.
  - destruct (truthy res); [|reflexivity].
    destruct res; reflexivity.
  - assert (is_OSError e = true) as Hos.
    { destruct (ping_raises_env_error _ _ _ _ _ Hp) as [H|[H|H]];
        eauto. }
    rewrite caught_spec, Hos. reflexivity.
Qed.

Lemma net_select_contains_socket_errors_witness :
  pattern_matches "http://m1" /\
  fst (net_select no_privilege_env "http://m1" empty_state) = Ok tt.
Proof.
  assert (pattern_matches "http://m1") as H.
  { apply re_search_some with (d := "m1"%string). reflexivity. }
  split; [exact H|].
  refine (proj1 (net_select_contains_socket_errors no_privilege_env
                   "http://m1" empty_state H _ _ _)).
  - intros e E. injection E as <-. reflexivity.
  - intros addr e E. discriminate E.
  - intros e E. discriminate E.
Defined.

(** * Round trips *)

(** The URL is read back from the entry that [net_select] writes:
    whatever the latency, [line[line.index('h'):]] on the entry of a
    host that begins with [h] is that host. *)
Theorem entry_gives_back_url (ms : Z) (host : string) :
  starts_with_h host = true ->
  from_first_h (score_entry ms host) = Some host.
Proof.
  intros H.
  apply (from_first_h_entry (latency_field ms, host)).
  - apply latency_field_has_no_h.
  - exact H.
Qed.

Lemma entry_gives_back_url_witness :
  starts_with_h "http://deb.debian.org/debian/" = true /\
  from_first_h (score_entry 1234 "http://deb.debian.org/debian/")
  = Some "http://deb.debian.org/debian/"%string.
Proof.
  split; [reflexivity|].
  apply (entry_gives_back_url 1234 "http://deb.debian.org/debian/").
  reflexivity.
Defined.

Lemma take_domain_exact (d rest : string) :
  all_domain_chars d = true ->
  take_domain rest = EmptyString ->
  take_domain (d ++ rest)%string = d.
Proof.
  intros Hd Hrest. induction d as [|c d IH]; simpl in *.
  - exact Hrest.
  - apply andb_prop in Hd. destruct Hd as [Hc Hd].
    rewrite Hc, (IH Hd). reflexivity.
Qed.

Lemma re_search_here (s d : string) :
  match_here s = Some d -> re_search s = Some d.
Proof.
  destruct s as [|c s]; intros H.
  - discriminate H.
  - simpl. rewrite H. reflexivity.
Qed.

(** The domain handed to [ping] is the host name of the URL: for a URL
    made of [http://] or [https://], a non-empty host name of characters
    of the class, and a rest that is empty or begins with another
    character (a slash, a colon), the search returns that host name. *)
Theorem re_search_finds_host_name (scheme d rest : string) :
  scheme = "http"%string \/ scheme = "https"%string ->
  d <> EmptyString ->
  all_domain_chars d = true ->
  take_domain rest = EmptyString ->
  re_search (scheme ++ "://" ++ d ++ rest) = Some d.
Proof.
  intros Hs Hne Hd Hrest.
  assert (match_here (scheme ++ "://" ++ d ++ rest) = Some d) as E.
  { unfold match_here. destruct Hs as [-> | ->].
    - change (strip_prefix "https://" ("http" ++ "://" ++ d ++ rest)%string)
        with (@None string).
      change ("http" ++ "://" ++ d ++ rest)%string
        with ("http://" ++ (d ++ rest))%string.
      rewrite strip_prefix_app. unfold group1.
      rewrite take_domain_exact by assumption.
      destruct d; [contradiction|reflexivity].
    - change ("https" ++ "://" ++ d ++ rest)%string
        with ("https://" ++ (d ++ rest))%string.
      rewrite strip_prefix_app. unfold group1.
      rewrite take_domain_exact by assumption.
      destruct d; [contradiction|reflexivity]. }
  apply re_search_here. exact E.
Qed.

Lemma re_search_finds_host_name_witness :
  take_domain "/ubuntu/" = EmptyString /\
  re_search "https://archive.ubuntu.com/ubuntu/"
  = Some "archive.ubuntu.com"%string.
Proof.
  split; [reflexivity|].
  apply (re_search_finds_host_name "https" "archive.ubuntu.com" "/ubuntu/").
  - right. reflexivity.
  - discriminate.
  - reflexivity.
  - reflexivity.
Defined.

(** * Further properties of the ranking *)

Lemma compare_not_gt_trans (a : string) :
  forall b c,
    String.compare a b <> Gt -> String.compare b c <> Gt ->
    String.compare a c <> Gt.
Proof.
  induction a as [|x a IH]; intros [|y b] [|z c]; simpl;
    try (intros; congruence).
  unfold Ascii.compare.
  destruct (N.compare_spec (N_of_ascii x) (N_of_ascii y)) as [Exy|Lxy|Gxy];
    destruct (N.compare_spec (N_of_ascii y) (N_of_ascii z)) as [Eyz|Lyz|Gyz];
    destruct (N.compare_spec (N_of_ascii x) (N_of_ascii z)) as [Exz|Lxz|Gxz];
    try (intros; congruence); try lia.
  apply IH.
Qed.

Lemma ascending_compare (a b : string) :
  ascending a b <-> String.compare a b <> Gt.
Proof.
  unfold ascending, String.leb.
  destruct (String.compare a b); split; congruence.
Qed.

Lemma ascending_trans (a b c : string) :
  ascending a b -> ascending b c -> ascending a c.
Proof.
  rewrite !ascending_compare. apply compare_not_gt_trans.
Qed.

Lemma ascending_antisym (a b : string) :
  ascending a b -> ascending b a -> a = b.
Proof. apply String.leb_antisym. Qed.

Lemma sort_strongly_sorted (l : list string) :
  StronglySorted ascending (sort l).
Proof.
  apply Sorted_StronglySorted.
  - intros a b c. apply ascending_trans.
  - apply sort_sorted.
Qed.

(** A list has one ascending arrangement. *)
Lemma ascending_arrangement_unique (l1 : list string) :
  forall l2,
    StronglySorted ascending l1 -> StronglySorted ascending l2 ->
    Permutation l1 l2 -> l1 = l2.
Proof.
  induction l1 as [|x l1 IH]; intros [|y l2] H1 H2 P.
  - reflexivity.
  - apply Permutation_nil in P. discriminate P.
  - apply Permutation_sym, Permutation_nil in P. discriminate P.
  - inversion H1 as [|? ? Hs1 Hx]. inversion H2 as [|? ? Hs2 Hy]. subst.
    assert (x = y) as ->.
    { assert (In x (y :: l2)) as Hin1
        by (apply (Permutation_in _ P); left; reflexivity).
      assert (In y (x :: l1)) as Hin2
        by (apply (Permutation_in _ (Permutation_sym P)); left; reflexivity).
      rewrite Forall_forall in Hx, Hy.
      destruct Hin1 as [E|Hin1]; [congruence|].
      destruct Hin2 as [E|Hin2]; [congruence|].
      apply ascending_antisym; auto. }
    f_equal. apply IH; try assumption.
    apply (Permutation_cons_inv P).
Qed.

Lemma sort_permutation (l l' : list string) :
  Permutation l l' -> sort l = sort l'.
Proof.
  intros P. apply ascending_arrangement_unique.
  - apply sort_strongly_sorted.
  - apply sort_strongly_sorted.
  - apply perm_trans with l; [apply sort_perm|].
    apply perm_trans with l'; [exact P|].
    apply Permutation_sym, sort_perm.
Qed.

Lemma sort_idempotent (l : list string) : sort (sort l) = sort l.
Proof. apply sort_permutation, sort_perm. Qed.

Lemma net_select_recorded (env : net_env) (host : string) (st : state) :
  netselect_scored (snd (net_select env host st))
  = netselect_scored st ++ recorded env host.
Proof.
  unfold recorded, net_select.
  destruct (match re_search host with
            | Some d => ping env d default_timeout 1 []
            | None => Raise NameError
            end) as [res|e].
  - destruct res as [elapsed|]; cbn [truthy].
    + destruct (negb (elapsed =? 0)); cbn [snd netselect_scored empty_state].
      * reflexivity.
      * rewrite app_nil_r. reflexivity.
    + cbn [snd netselect_scored empty_state]. rewrite app_nil_r. reflexivity.
  - destruct (caught e); [|cbn; rewrite app_nil_r; reflexivity].
    destruct (re_search host); cbn; rewrite app_nil_r; reflexivity.
Qed.

Lemma probe_all_recorded (env_of : string -> net_env) (netselect : list string) :
  forall st,
    netselect_scored (probe_all env_of netselect st)
    = netselect_scored st
      ++ flat_map (fun url => recorded (env_of url) url) netselect.
Proof.
  induction netselect as [|url rest IH]; intros st.
  - simpl. rewrite app_nil_r. reflexivity.
  - rewrite probe_all_cons, IH. unfold run_thread.
    rewrite net_select_recorded. cbn [flat_map].
    rewrite app_assoc. reflexivity.
Qed.

(** The ranking does not depend on the order in which the workers
    finish: whatever the order in which the mirrors are taken, [fetch]
    writes the same mirrors and leaves the same collection. *)
Theorem fetch_independent_of_completion_order
    (env_of : string -> net_env) (fetches : Z)
    (netselect netselect' : list string) (st : state) :
  Permutation netselect netselect' ->
  fst (fetch env_of fetches netselect st)
  = fst (fetch env_of fetches netselect' st) /\
  netselect_scored (snd (fetch env_of fetches netselect st))
  = netselect_scored (snd (fetch env_of fetches netselect' st)).
Proof.
  intros P. unfold fetch.
  destruct ((1 <=? fetches) && (fetches <? 11)); [|split; reflexivity].
  assert (sort (netselect_scored (probe_all env_of netselect st))
          = sort (netselect_scored (probe_all env_of netselect' st))) as E.
  { apply sort_permutation. rewrite !probe_all_recorded.
    apply Permutation_app_head.
    apply Permutation_flat_map. exact P. }
  rewrite E.
  destruct (select_mirrors 0 fetches _); split; reflexivity.
Qed.

Lemma fetch_independent_of_completion_order_witness :
  Permutation ["http://a"; "http://b"]%string ["http://b"; "http://a"]%string /\
  fst (fetch (fun _ => reply_env 20000) 1 ["http://a"; "http://b"]%string
         empty_state)
  = fst (fetch (fun _ => reply_env 20000) 1 ["http://b"; "http://a"]%string
           empty_state).
Proof.
  assert (Permutation ["http://a"; "http://b"]%string
                      ["http://b"; "http://a"]%string) as P
    by apply perm_swap.
  split; [exact P|].
  apply (fetch_independent_of_completion_order
           (fun _ => reply_env 20000) 1 _ _ empty_state P).
Defined.

(** Ranking again without probing any mirror changes nothing: the same
    outcome, and the same collection and output as after the first
    run. *)
Theorem fetch_again_without_mirrors_is_identity
    (env_of env_of' : string -> net_env) (fetches : Z)
    (netselect : list string) (st : state) :
  fetch env_of' fetches [] (snd (fetch env_of fetches netselect st))
  = fetch env_of fetches netselect st.
Proof.
  unfold fetch at 2 3.
  destruct ((1 <=? fetches) && (fetches <? 11)) eqn:G.
  - destruct (select_mirrors 0 fetches
                (sort (netselect_scored (probe_all env_of netselect st))))
      as [mirrors|e] eqn:E; cbn [snd]; unfold fetch; rewrite G;
      cbn [probe_all fold_left netselect_scored printed];
      rewrite sort_idempotent, E; reflexivity.
  - cbn [snd]. unfold fetch. rewrite G. reflexivity.
Qed.

Lemma from_first_h_starts (e m : string) :
  from_first_h e = Some m -> starts_with_h m = true.
Proof.
  induction e as [|c e IH]; simpl.
  - discriminate.
  - destruct (Ascii.eqb c "h") eqn:E.
    + intros H. injection H as <-. simpl. exact E.
    + exact IH.
Qed.

Lemma select_mirrors_bounds (scored : list string) :
  forall num fetches mirrors,
    num < fetches ->
    select_mirrors num fetches scored = Ok mirrors ->
    Z.of_nat (List.length mirrors) <= fetches - num /\
    (List.length mirrors <= List.length scored)%nat /\
    (mirrors = [] <-> scored = []) /\
    Forall (fun m => starts_with_h m = true /\
                     exists e, In e scored /\ from_first_h e = Some m)
      mirrors.
Proof.
  induction scored as [|line rest IH]; intros num fetches mirrors Hlt;
    cbn [select_mirrors].
  - intros H. injection H as <-. simpl. repeat split; (lia || constructor).
  - destruct (from_first_h line) as [m|] eqn:Hm; [|discriminate].
    assert (starts_with_h m = true /\
            exists e, In e (line :: rest) /\ from_first_h e = Some m) as Hhead.
    { split; [apply (from_first_h_starts _ _ Hm)|].
      exists line. split; [left; reflexivity|exact Hm]. }
    destruct (Z.eqb_spec (num + 1) fetches) as [E|E].
    + intros H. injection H as <-. cbn [List.length].
      split; [lia|]. split; [lia|]. split; [split; discriminate|].
      constructor; [exact Hhead|constructor].
    + destruct (select_mirrors (num + 1) fetches rest) as [more|e] eqn:Hrest;
        [|discriminate].
      intros H. injection H as <-.
      destruct (IH (num + 1) fetches more ltac:(lia) Hrest)
        as (H1 & H2 & _ & H4).
      cbn [List.length]. split; [lia|]. split; [lia|].
      split; [split; discriminate|].
      constructor; [exact Hhead|].
      rewrite Forall_forall in *. intros x Hx.
      destruct (H4 x Hx) as (Hs & e & He & Hfe).
      split; [exact Hs|]. exists e. split; [right; exact He|exact Hfe].
Qed.

(** What [fetch] writes: at most [fetches] mirrors and no more than the
    collection holds, none at all only when the collection is empty;
    each mirror written begins with [h] and is what follows the first
    [h] of an entry of the collection. *)
Theorem fetch_output_bounds
    (env_of : string -> net_env) (fetches : Z) (netselect : list string)
    (st st' : state) (mirrors : list string) :
  fetch env_of fetches netselect st = (Written mirrors, st') ->
  1 <= fetches <= 10 /\
  Z.of_nat (List.length mirrors) <= fetches /\
  (List.length mirrors <= List.length (netselect_scored st'))%nat /\
  (mirrors = [] <-> netselect_scored st' = []) /\
  Forall (fun m => starts_with_h m = true /\
                   exists e, In e (netselect_scored st') /\
                             from_first_h e = Some m)
    mirrors.
Proof.
  unfold fetch.
  destruct ((1 <=? fetches) && (fetches <? 11)) eqn:G; [|discriminate].
  apply andb_true_iff in G. rewrite Z.leb_le, Z.ltb_lt in G.
  destruct (select_mirrors 0 fetches
              (sort (netselect_scored (probe_all env_of netselect st))))
    as [ms|e] eqn:E; [|discriminate].
  intros H. injection H as <- <-. cbn [netselect_scored].
  destruct (select_mirrors_bounds _ 0 fetches ms ltac:(lia) E)
    as (H1 & H2 & H3 & H4).
  split; [lia|]. split; [lia|]. auto.
Qed.

Lemma fetch_output_bounds_witness :
  fetch (fun _ => quiet_env) 2 [] http_state
  = (Written ["http://a"; "http://b"]%string,
     {| netselect_scored :=
          ["005 http://a"; "010 http://b"; "999 http://c"]%string;
        printed := [] |}) /\
  Z.of_nat (List.length ["http://a"; "http://b"]%string) <= 2.
Proof.
  assert (fetch (fun _ => quiet_env) 2 [] http_state
          = (Written ["http://a"; "http://b"]%string,
             {| netselect_scored :=
                  ["005 http://a"; "010 http://b"; "999 http://c"]%string;
                printed := [] |})) as H by (vm_compute; reflexivity).
  split; [exact H|].
  exact (proj1 (proj2 (fetch_output_bounds _ _ _ _ _ _ H))).
Defined.

Lemma from_first_h_found (before rest : string) :
  from_first_h (before ++ String "h" rest) <> None.
Proof.
  induction before as [|c before IH]; simpl.
  - discriminate.
  - destruct (Ascii.eqb c "h"); [discriminate|exact IH].
Qed.

Lemma pattern_matches_has_h (host : string) :
  pattern_matches host -> from_first_h host <> None.
Proof.
  intros (before & scheme & d & rest & -> & [-> | ->] & _ & _);
    apply from_first_h_found.
Qed.

Lemma recorded_has_h (env : net_env) (host : string) :
  Forall (fun e => from_first_h e <> None) (recorded env host).
Proof.
  unfold recorded, net_select.
  destruct (re_search host) as [d|] eqn:Hd.
  - assert (from_first_h host <> None) as Hh
      by (apply pattern_matches_has_h, (re_search_some _ _ Hd)).
    destruct (ping env d default_timeout 1 []) as [res|e].
    + destruct res as [elapsed|]; cbn [truthy]; [|constructor].
      destruct (negb (elapsed =? 0)); cbn; [|constructor].
      constructor; [|constructor].
      unfold score_entry. fold (latency_field (millis elapsed)).
      rewrite from_first_h_app by apply latency_field_has_no_h.
      simpl. exact Hh.
    + destruct (caught e); cbn; constructor.
  - cbn. constructor.
Qed.

Lemma select_mirrors_succeeds (scored : list string) :
  Forall (fun e => from_first_h e <> None) scored ->
  forall num fetches, exists mirrors,
    select_mirrors num fetches scored = Ok mirrors.
Proof.
  induction 1 as [|line rest Hline _ IH]; intros num fetches;
    cbn [select_mirrors].
  - eexists. reflexivity.
  - destruct (from_first_h line) as [m|]; [|contradiction].
    destruct (num + 1 =? fetches); [eexists; reflexivity|].
    destruct (IH (num + 1) fetches) as [more ->]. eexists. reflexivity.
Qed.

(** [fetch] never fails on what [net_select] records: every entry that a
    worker appends contains an [h], so when the entries already in the
    collection do (in particular when it is empty), [line.index('h')]
    finds one in every line and no exception leaves [fetch]. *)
Theorem fetch_never_fails_on_recorded_entries
    (env_of : string -> net_env) (fetches : Z) (netselect : list string)
    (st : state) :
  Forall (fun e => from_first_h e <> None) (netselect_scored st) ->
  (exists mirrors, fst (fetch env_of fetches netselect st) = Written mirrors)
  \/ fst (fetch env_of fetches netselect st) = Exited 1.
Proof.
  intros Hst. unfold fetch.
  destruct ((1 <=? fetches) && (fetches <? 11)); [left|right; reflexivity].
  assert (Forall (fun e => from_first_h e <> None)
            (sort (netselect_scored (probe_all env_of netselect st)))) as Hall.
  { rewrite Forall_forall. intros e He.
    apply (Permutation_in _ (sort_perm _)) in He.
    rewrite probe_all_recorded in He. apply in_app_or in He.
    destruct He as [He|He].
    - rewrite Forall_forall in Hst. apply Hst, He.
    - apply in_flat_map in He. destruct He as (url & _ & He).
      pose proof (recorded_has_h (env_of url) url) as Hr.
      rewrite Forall_forall in Hr. apply Hr, He. }
  destruct (select_mirrors_succeeds _ Hall 0 fetches) as [mirrors ->].
  exists mirrors. reflexivity.
Qed.

Lemma fetch_never_fails_witness :
  Forall (fun e => from_first_h e <> None) (netselect_scored empty_state) /\
  ((exists mirrors,
      fst (fetch (fun _ => reply_env 20000) 3 ["http://a"]%string empty_state)
      = Written mirrors)
   \/ fst (fetch (fun _ => reply_env 20000) 3 ["http://a"]%string empty_state)
      = Exited 1).
Proof.
  assert (Forall (fun e => from_first_h e <> None)
            (netselect_scored empty_state)) as H by constructor.
  split; [exact H|].
  apply (fetch_never_fails_on_recorded_entries
           (fun _ => reply_env 20000) 3 ["http://a"]%string empty_state H).
Defined.

Lemma sorted_map_reflect {A B : Type} (f : A -> B) (R : A -> A -> Prop)
    (R' : B -> B -> Prop) (P : A -> Prop) (l : list A) :
  (forall x y, P x -> P y -> R' (f x) (f y) -> R x y) ->
  Forall P l -> Sorted R' (map f l) -> Sorted R l.
Proof.
  intros Hreflect. induction l as [|x l IH]; intros HP Hs.
  - constructor.
  - inversion HP as [|? ? Hx Hl]. subst.
    cbn [map] in Hs. inversion Hs as [|? ? Hs' Hhd]. subst.
    constructor; [apply IH; assumption|].
    destruct l as [|y l]; constructor.
    cbn [map] in Hhd. inversion Hhd. subst.
    inversion Hl. subst. apply Hreflect; assumption.
Qed.

Lemma ascending_entries_latency (a b : Z) (u v : string) :
  10 <= a <= 999 -> 10 <= b <= 999 ->
  ascending (score_entry a u) (score_entry b v) -> a <= b.
Proof.
  intros Ha Hb Hasc.
  destruct (Z.le_gt_cases a b) as [H|H]; [exact H|].
  exfalso.
  pose proof (padded_entries_ordered b a v u ltac:(lia) ltac:(lia) ltac:(lia))
    as Hlt.
  apply ascending_compare in Hasc. apply Hasc.
  unfold String.ltb in Hlt. rewrite String.compare_antisym.
  destruct (String.compare (score_entry b v) (score_entry a u));
    (discriminate Hlt || reflexivity).
Qed.

(** Fastest first: when every recorded latency lies between 10 and
    999 ms and every URL begins with [h], [fetch] writes the URLs of the
    first [fetches] results in non-decreasing order of latency. *)
Theorem fetch_orders_by_latency
    (env_of : string -> net_env) (fetches : Z) (netselect : list string)
    (st : state) (results : list (Z * string)) :
  1 <= fetches <= 10 ->
  netselect_scored (probe_all env_of netselect st)
    = map (fun r => score_entry (fst r) (snd r)) results ->
  Forall (fun r => 10 <= fst r <= 999 /\ starts_with_h (snd r) = true)
    results ->
  exists ranked,
    Permutation ranked results /\
    Sorted Z.le (map fst ranked) /\
    fst (fetch env_of fetches netselect st)
      = Written (map snd (firstn (Z.to_nat fetches) ranked)).
Proof.
  intros Hf Hscored Hall.
  destruct (Permutation_map_inv (fun r => score_entry (fst r) (snd r)) results
              (sort_perm (map (fun r => score_entry (fst r) (snd r)) results)))
    as (ranked & Hsort & Hperm).
  apply Permutation_sym in Hperm.
  assert (Forall (fun r => 10 <= fst r <= 999 /\ starts_with_h (snd r) = true)
            ranked) as Hranked.
  { rewrite Forall_forall in *. intros r Hr. apply Hall.
    apply (Permutation_in _ Hperm Hr). }
  exists ranked. split; [exact Hperm|]. split.
  - assert (Sorted (fun x y : Z * string => fst x <= fst y) ranked) as Hs.
    { apply sorted_map_reflect
        with (f := fun r => score_entry (fst r) (snd r))
             (R' := ascending)
             (P := fun r => 10 <= fst r <= 999 /\ starts_with_h (snd r) = true).
      - intros x y [Hx _] [Hy _] Hasc.
        apply (ascending_entries_latency _ _ _ _ Hx Hy Hasc).
      - exact Hranked.
      - rewrite <- Hsort. apply sort_sorted. }
    clear - Hs. induction Hs as [|x l Hl IH Hhd]; cbn [map].
    + constructor.
    + constructor; [exact IH|].
      destruct Hhd; cbn [map]; constructor. assumption.
  - unfold fetch.
    assert (((1 <=? fetches) && (fetches <? 11)) = true) as ->.
    { apply andb_true_iff. split; [apply Z.leb_le|apply Z.ltb_lt]; lia. }
    cbn [netselect_scored]. rewrite Hscored, Hsort.
    set (pairs := map (fun r : Z * string => (latency_field (fst r), snd r))
                    ranked).
    assert (map entry_of pairs
            = map (fun r : Z * string => score_entry (fst r) (snd r)) ranked)
      as Hpairs by (unfold pairs; rewrite map_map; reflexivity).
    assert (Forall (fun r => from_first_h (fst r) = None /\
                             starts_with_h (snd r) = true) pairs) as Hok.
    { unfold pairs. rewrite Forall_map. rewrite Forall_forall in *.
      intros r Hr. cbn [fst snd].
      split; [apply latency_field_has_no_h | apply (Hranked r Hr)]. }
    pose proof (select_mirrors_firstn pairs Hok 0 fetches ltac:(lia)) as Hsel.
    rewrite Hpairs in Hsel. rewrite Hsel.
    rewrite Z.sub_0_r. unfold pairs. rewrite firstn_map, map_map.
    reflexivity.
Qed.

Lemma fetch_orders_by_latency_witness :
  1 <= 2 <= 10 /\
  exists ranked,
    Permutation ranked [(120, "http://m1"); (45, "http://m3")]%string /\
    Sorted Z.le (map fst ranked) /\
    fst (fetch (fun _ => quiet_env) 2 []
           {| netselect_scored := ["120 http://m1"; "045 http://m3"]%string;
              printed := [] |})
    = Written (map snd (firstn (Z.to_nat 2) ranked)).
Proof.
  split; [lia|].
  apply (fetch_orders_by_latency (fun _ => quiet_env) 2 []
           {| netselect_scored := ["120 http://m1"; "045 http://m3"]%string;
              printed := [] |}
           [(120, "http://m1"); (45, "http://m3")]%string).
  - lia.
  - reflexivity.
  - repeat constructor; cbn; lia.
Defined.

(** * ping reports a reply that arrives in time *)






(** * detect_release *)

Lemma fields_loop_distro (fields : list string) :
  forall st,
    fst (fields_loop fields st) = fst st \/
    (fst (fields_loop fields st) = Some "ubuntu"%string /\
     In "o=Ubuntu"%string fields).
Proof.
  unfold fields_loop.
  induction fields as [|f fields IH]; intros st; cbn [fold_left].
  - left. reflexivity.
  - destruct (String.eqb_spec f "o=Ubuntu") as [->|Hne].
    + right. split; [|left; reflexivity].
      destruct (IH (Some "ubuntu"%string, codename_loop (snd st)))
        as [E|[E _]]; exact E.
    + destruct (IH st) as [E|[E Hin]]; [left; exact E|].
      right. split; [exact E|right; exact Hin].
Qed.

Lemma policy_loop_distro (policy : list string) :
  forall st,
    fst (policy_loop policy st) = fst st \/
    (fst (policy_loop policy st) = Some "ubuntu"%string /\
     exists line, In line policy /\ In "o=Ubuntu"%string (split_on "," line)).
Proof.
  unfold policy_loop.
  induction policy as [|line policy IH]; intros st; cbn [fold_left].
  - left. reflexivity.
  - set (st' := if contains "o=Ubuntu" line || contains "o=Debian" line
                then fields_loop (split_on "," line)
                       (fst st, release_list (split_on "," line))
                else st).
    assert (fst st' = fst st \/
            (fst st' = Some "ubuntu"%string /\
             In "o=Ubuntu"%string (split_on "," line))) as Hst'.
    { unfold st'.
      destruct (contains "o=Ubuntu" line || contains "o=Debian" line);
        [|left; reflexivity].
      apply (fields_loop_distro (split_on "," line)
               (fst st, release_list (split_on "," line))). }
    destruct (IH st') as [E|[E (l & Hl & Hin)]].
    + destruct Hst' as [E'|[E' Hin]].
      * left. congruence.
      * right. split; [congruence|]. exists line.
        split; [left; reflexivity|exact Hin].
    + right. split; [exact E|]. exists l. split; [right; exact Hl|exact Hin].
Qed.

(** [detect_release] never detects Debian: whenever it returns, the
    distribution is [ubuntu], and some policy line has a field that is
    exactly [o=Ubuntu]. On any other policy output, that of a Debian
    system included, it reports that the release cannot be detected. *)
Theorem detect_release_only_detects_ubuntu
    (policy : list string) (distro : string) (release : release_value) :
  detect_release policy = Some (distro, release) ->
  distro = "ubuntu"%string /\
  exists line, In line policy /\ In "o=Ubuntu"%string (split_on "," line).
Proof.
  unfold detect_release. intros H.
  destruct (policy_loop_distro policy (None, release_list policy))
    as [E|[E Hline]].
  - cbn [fst] in E. rewrite E in H. discriminate H.
  - rewrite E in H.
    destruct (release_truthy _); [|discriminate H].
    injection H as <- _. split; [reflexivity|exact Hline].
Qed.

Lemma detect_release_only_detects_ubuntu_witness :
  detect_release
    ["500 http://archive.ubuntu.com/ubuntu jammy/main amd64 Packages";
     "release v=22.04,o=Ubuntu,a=jammy,n=jammy,l=Ubuntu,c=main"]%string
  = Some ("ubuntu"%string, release_name "jammy") /\
  exists line,
    In line
      ["500 http://archive.ubuntu.com/ubuntu jammy/main amd64 Packages";
       "release v=22.04,o=Ubuntu,a=jammy,n=jammy,l=Ubuntu,c=main"]%string /\
    In "o=Ubuntu"%string (split_on "," line).
Proof.
  assert (detect_release
    ["500 http://archive.ubuntu.com/ubuntu jammy/main amd64 Packages";
     "release v=22.04,o=Ubuntu,a=jammy,n=jammy,l=Ubuntu,c=main"]%string
  = Some ("ubuntu"%string, release_name "jammy")) as H
    by (vm_compute; reflexivity).
  split; [exact H|].
  exact (proj2 (detect_release_only_detects_ubuntu _ _ _ H)).
Defined.

Lemma startswith_character (c : ascii) :
  startswith "n=" (String c EmptyString) = false.
Proof.
  unfold startswith.
  change (strip_prefix "n=" (String c EmptyString))
    with (if Ascii.eqb "n" c then strip_prefix "=" EmptyString else None).
  destruct (Ascii.eqb "n" c); reflexivity.
Qed.

Lemma codename_loop_name (s : string) :
  codename_loop (release_name s) = release_name s.
Proof.
  unfold codename_loop. cbn [items].
  generalize (release_name s) as rel.
  induction s as [|c s IH]; intros rel; cbn [characters fold_left].
  - reflexivity.
  - rewrite startswith_character. apply IH.
Qed.

Lemma fold_codename_none (fields : list string) (rel : release_value) :
  Forall (fun f => startswith "n=" f = false) fields ->
  fold_left
    (fun rel line => if startswith "n=" line then release_name (drop2 line)
                     else rel)
    fields rel = rel.
Proof.
  intros H. revert rel.
  induction H as [|f fields Hf _ IH]; intros rel; cbn [fold_left].
  - reflexivity.
  - rewrite Hf. apply IH.
Qed.

Lemma codename_loop_list (f1 f2 : list string) (name : string) :
  Forall (fun f => startswith "n=" f = false) f2 ->
  codename_loop (release_list (f1 ++ ("n=" ++ name)%string :: f2))
  = release_name name.
Proof.
  intros H. unfold codename_loop. cbn [items].
  rewrite fold_left_app. cbn [fold_left].
  change (startswith "n=" ("n=" ++ name)) with true. cbv iota.
  change (drop2 ("n=" ++ name)) with name.
  apply fold_codename_none. exact H.
Qed.

Lemma fields_loop_settled (fields : list string) (name : string) :
  fields_loop fields (Some "ubuntu"%string, release_name name)
  = (Some "ubuntu"%string, release_name name).
Proof.
  unfold fields_loop.
  induction fields as [|f fields IH]; cbn [fold_left].
  - reflexivity.
  - destruct (String.eqb f "o=Ubuntu"); [|exact IH].
    cbn [snd]. rewrite codename_loop_name. exact IH.
Qed.

Lemma fields_loop_finds (fields all : list string) (name : string)
    (distro : option string) :
  codename_loop (release_list all) = release_name name ->
  In "o=Ubuntu"%string fields ->
  fields_loop fields (distro, release_list all)
  = (Some "ubuntu"%string, release_name name).
Proof.
  intros Hcode. unfold fields_loop.
  induction fields as [|f fields IH]; intros Hin; [contradiction|].
  cbn [fold_left].
  destruct (String.eqb_spec f "o=Ubuntu") as [->|Hne].
  - cbn [snd]. rewrite Hcode. apply fields_loop_settled.
  - destruct Hin as [E|Hin]; [congruence|]. apply IH, Hin.
Qed.

Lemma contains_tail (sub : string) (c : ascii) (s : string) :
  contains sub s = true -> contains sub (String c s) = true.
Proof.
  intros H. cbn [contains].
  destruct (strip_prefix sub (String c s)); [reflexivity|exact H].
Qed.

Lemma split_on_head (sep : ascii) (s : string) :
  exists h r rest, split_on sep s = h :: r /\ s = (h ++ rest)%string.
Proof.
  induction s as [|c s (h & r & rest & E & Hs)]; cbn [split_on].
  - exists EmptyString, [], EmptyString. split; reflexivity.
  - destruct (Ascii.eqb c sep).
    + exists EmptyString, (split_on sep s), (String c s). split; reflexivity.
    + rewrite E. exists (String c h), r, rest.
      split; [reflexivity|]. simpl. rewrite <- Hs. reflexivity.
Qed.

(** Every field of a line occurs in the line. *)
Lemma field_contained (sep : ascii) (f s : string) :
  In f (split_on sep s) -> contains f s = true.
Proof.
  induction s as [|c s IH]; cbn [split_on].
  - intros [<-|[]]. reflexivity.
  - destruct (Ascii.eqb c sep).
    + intros [<-|Hin]; [reflexivity|]. apply contains_tail, IH, Hin.
    + destruct (split_on_head sep s) as (h & r & rest & E & Hs).
      rewrite E in *. intros [<-|Hin].
      * cbn [contains strip_prefix]. rewrite Ascii.eqb_refl.
        rewrite Hs at 1. rewrite strip_prefix_app. reflexivity.
      * apply contains_tail, IH. right. exact Hin.
Qed.

Lemma policy_loop_skips (policy : list string) :
  Forall (fun line => contains "o=Ubuntu" line = false /\
                      contains "o=Debian" line = false) policy ->
  forall st, policy_loop policy st = st.
Proof.
  unfold policy_loop.
  induction 1 as [|line policy [H1 H2] _ IH]; intros st; cbn [fold_left].
  - reflexivity.
  - rewrite H1, H2. apply IH.
Qed.

(** The nominal case: when the last policy line that mentions [o=Ubuntu]
    or [o=Debian] has a field that is exactly [o=Ubuntu] and its last
    field beginning with [n=] carries a non-empty code name, the result
    is [ubuntu] with that code name, whatever the lines before it. *)
Theorem detect_release_reads_code_name
    (before after f1 f2 : list string) (line name : string) :
  Forall (fun l => contains "o=Ubuntu" l = false /\
                   contains "o=Debian" l = false) after ->
  split_on "," line = f1 ++ ("n=" ++ name)%string :: f2 ->
  Forall (fun f => startswith "n=" f = false) f2 ->
  In "o=Ubuntu"%string (split_on "," line) ->
  name <> EmptyString ->
  detect_release (before ++ line :: after)
  = Some ("ubuntu"%string, release_name name).
Proof.
  intros Hafter Hsplit Hf2 Hin Hname.
  unfold detect_release, policy_loop.
  rewrite fold_left_app. cbn [fold_left].
  assert (contains "o=Ubuntu" line = true) as ->
    by (apply (field_contained ","), Hin).
  cbn [orb].
  rewrite (fields_loop_finds _ _ name); [|rewrite Hsplit;
    apply codename_loop_list, Hf2|exact Hin].
  fold (policy_loop after (Some "ubuntu"%string, release_name name)).
  rewrite policy_loop_skips by exact Hafter.
  cbn [fst snd]. destruct name; [contradiction|reflexivity].
Qed.

Lemma detect_release_reads_code_name_witness :
  split_on "," "release v=22.04,o=Ubuntu,n=jammy,c=main"
  = ["release v=22.04"; "o=Ubuntu"]%string
    ++ ("n=" ++ "jammy")%string :: ["c=main"]%string /\
  detect_release
    (["release o=Debian,n=sid"]%string
     ++ "release v=22.04,o=Ubuntu,n=jammy,c=main"%string
     :: ["origin archive.ubuntu.com"]%string)
  = Some ("ubuntu"%string, release_name "jammy").
Proof.
  assert (split_on "," "release v=22.04,o=Ubuntu,n=jammy,c=main"
          = ["release v=22.04"; "o=Ubuntu"]%string
            ++ ("n=" ++ "jammy")%string :: ["c=main"]%string) as Hsplit
    by (vm_compute; reflexivity).
  split; [exact Hsplit|].
  refine (detect_release_reads_code_name
            ["release o=Debian,n=sid"]%string
            ["origin archive.ubuntu.com"]%string
            ["release v=22.04"; "o=Ubuntu"]%string
            ["c=main"]%string
            "release v=22.04,o=Ubuntu,n=jammy,c=main" "jammy"
            _ Hsplit _ _ _).
  - constructor; [split; vm_compute; reflexivity|constructor].
  - constructor; [vm_compute; reflexivity|constructor].
  - rewrite Hsplit. right. left. reflexivity.
  - discriminate.
Defined.

(** * The URL between the quotes *)

Lemma after_first_quote_spec (line rest : string) :
  after_first_quote line = Some rest <->
  exists pre, line = (pre ++ String dquote rest)%string /\ no_quote pre = true.
Proof.
  split.
  - revert rest. induction line as [|c line IH]; intros rest;
      cbn [after_first_quote].
    + discriminate.
    + destruct (Ascii.eqb_spec c dquote) as [->|Hne].
      * intros H. injection H as <-. exists EmptyString. split; reflexivity.
      * intros H. destruct (IH _ H) as (pre & -> & Hpre).
        exists (String c pre). split; [reflexivity|]. cbn [no_quote].
        apply Ascii.eqb_neq in Hne. rewrite Hne, Hpre. reflexivity.
  - intros (pre & -> & Hpre).
    induction pre as [|c pre IH]; cbn [append after_first_quote no_quote] in *.
    + rewrite Ascii.eqb_refl. reflexivity.
    + apply andb_prop in Hpre. destruct Hpre as [Hc Hpre].
      apply negb_true_iff in Hc. rewrite Hc. apply IH, Hpre.
Qed.

Lemma before_first_quote_spec (line url : string) :
  before_first_quote line = Some url <->
  exists post, line = (url ++ String dquote post)%string /\ no_quote url = true.
Proof.
  split.
  - revert url. induction line as [|c line IH]; intros url;
      cbn [before_first_quote].
    + discriminate.
    + destruct (Ascii.eqb_spec c dquote) as [->|Hne].
      * intros H. injection H as <-. exists line. split; reflexivity.
      * destruct (before_first_quote line) as [u|]; [|discriminate].
        intros H. injection H as <-.
        destruct (IH u eq_refl) as (post & -> & Hu).
        exists post. split; [reflexivity|]. cbn [no_quote].
        apply Ascii.eqb_neq in Hne. rewrite Hne, Hu. reflexivity.
  - intros (post & -> & Hu).
    induction url as [|c url IH]; cbn [append before_first_quote no_quote] in *.
    + rewrite Ascii.eqb_refl. reflexivity.
    + apply andb_prop in Hu. destruct Hu as [Hc Hu].
      apply negb_true_iff in Hc. rewrite Hc, (IH Hu). reflexivity.
Qed.

Lemma between_quotes_ok (line url : string) :
  between_quotes line = Ok url <->
  exists pre post,
    line = (pre ++ String dquote (url ++ String dquote post))%string /\
    no_quote pre = true /\ no_quote url = true.
Proof.
  unfold between_quotes. split.
  - destruct (after_first_quote line) as [rest|] eqn:Ea; [|discriminate].
    destruct (before_first_quote rest) as [u|] eqn:Eb; [|discriminate].
    intros H. injection H as <-.
    apply after_first_quote_spec in Ea. destruct Ea as (pre & -> & Hpre).
    apply before_first_quote_spec in Eb. destruct Eb as (post & -> & Hu).
    exists pre, post. auto.
  - intros (pre & post & -> & Hpre & Hu).
    assert (after_first_quote (pre ++ String dquote (url ++ String dquote post))
            = Some (url ++ String dquote post)%string) as ->
      by (apply after_first_quote_spec; exists pre; auto).
    assert (before_first_quote (url ++ String dquote post) = Some url) as ->
      by (apply before_first_quote_spec; exists post; auto).
    reflexivity.
Qed.

(** What the parsers take from a line they keep is the text between its
    first two double quotes: the extraction succeeds exactly on lines
    that have two of them, and fails with [ValueError] on the others. *)
Theorem between_quotes_spec (line url : string) :
  (between_quotes line = Ok url <->
   exists pre post,
     line = (pre ++ String dquote (url ++ String dquote post))%string /\
     no_quote pre = true /\ no_quote url = true) /\
  (forall e, between_quotes line = Raise e -> e = ValueError).
Proof.
  split; [apply between_quotes_ok|].
  unfold between_quotes.
  intros e. destruct (after_first_quote line) as [rest|].
  - destruct (before_first_quote rest); [discriminate|].
    intros H. injection H as <-. reflexivity.
  - intros H. injection H as <-. reflexivity.
Qed.

(** * The line loop of parse_ubuntu *)

Lemma contains_here (sub s r : string) :
  strip_prefix sub s = Some r -> contains sub s = true.
Proof.
  intros H. destruct s as [|c s]; cbn [contains]; rewrite H; reflexivity.
Qed.

Lemma contains_unfold (sub : string) (c : ascii) (s : string) :
  contains sub (String c s) = true ->
  (exists r, strip_prefix sub (String c s) = Some r) \/ contains sub s = true.
Proof.
  cbn [contains].
  destruct (strip_prefix sub (String c s)) as [r|].
  - intros _. left. exists r. reflexivity.
  - intros H. right. exact H.
Qed.

Lemma contains_app (pre sub post : string) :
  contains sub (pre ++ sub ++ post) = true.
Proof.
  induction pre as [|c pre IH]; cbn [append].
  - apply (contains_here sub (sub ++ post) post). apply strip_prefix_app.
  - apply contains_tail. exact IH.
Qed.

(** A string in which a pattern that begins with a double quote occurs
    has a double quote. *)
Lemma contains_quote (p s : string) :
  contains (String dquote p) s = true ->
  exists u, before_first_quote s = Some u.
Proof.
  induction s as [|c s IH]; intros H.
  - discriminate H.
  - cbn [before_first_quote].
    destruct (Ascii.eqb_spec c dquote) as [->|Hne].
    + eexists. reflexivity.
    + destruct (contains_unfold _ _ _ H) as [[r Hr]|Hc].
      * cbn [strip_prefix] in Hr.
        destruct (Ascii.eqb_spec dquote c) as [E|_]; [congruence|discriminate].
      * destruct (IH Hc) as [u ->]. eexists. reflexivity.
Qed.

(** An occurrence in a line is either right at the first double quote
    or in what follows it. *)
Lemma contains_from_first_quote (p pre rest : string) :
  no_quote pre = true ->
  contains (String dquote p) (pre ++ String dquote rest) = true ->
  (exists r, strip_prefix p rest = Some r) \/
  contains (String dquote p) rest = true.
Proof.
  intros Hpre. induction pre as [|c pre IH]; cbn [append]; intros H.
  - destruct (contains_unfold _ _ _ H) as [[r Hr]|Hc].
    + left. exists r. cbn [strip_prefix] in Hr.
      rewrite Ascii.eqb_refl in Hr. exact Hr.
    + right. exact Hc.
  - cbn [no_quote] in Hpre. apply andb_prop in Hpre.
    destruct Hpre as [Hc Hpre]. apply negb_true_iff in Hc.
    destruct (contains_unfold _ _ _ H) as [[r Hr]|Hin].
    + cbn [strip_prefix] in Hr.
      rewrite Ascii.eqb_sym, Hc in Hr. discriminate Hr.
    + apply IH; assumption.
Qed.

Lemma ubuntu_line_ok (line : string) (r : result string) :
  ubuntu_line line = Some r ->
  exists url, r = Ok url /\ no_quote url = true.
Proof.
  unfold ubuntu_line.
  destruct (contains http_quote line) eqn:H1; [|discriminate].
  destruct (contains http_anchor line) eqn:H2; [|discriminate].
  cbn [andb]. intros H. injection H as <-.
  unfold between_quotes.
  destruct (contains_quote _ _ H1) as [u0 Hu0].
  destruct (after_first_quote line) as [rest|] eqn:Ea.
  2:{ exfalso. clear - Hu0 Ea. revert u0 Hu0.
      induction line as [|c line IH]; intros u0 Hu0;
        cbn [before_first_quote after_first_quote] in *.
      - discriminate.
      - destruct (Ascii.eqb c dquote); [discriminate|].
        destruct (before_first_quote line) as [u|]; [|discriminate].
        apply (IH Ea u eq_refl). }
  apply after_first_quote_spec in Ea. destruct Ea as (pre & -> & Hpre).
  assert (exists u, before_first_quote rest = Some u) as [u Hu].
  { destruct (contains_from_first_quote _ _ _ Hpre H1) as [[r1 Hr1]|Hc1].
    - destruct (contains_from_first_quote _ _ _ Hpre H2) as [[r2 Hr2]|Hc2].
      + exfalso. destruct rest as [|c rest]; [discriminate Hr1|].
        cbn [strip_prefix] in Hr1, Hr2.
        destruct (Ascii.eqb_spec "h" c) as [<-|]; [|discriminate Hr1].
        discriminate Hr2.
      + apply (contains_quote _ _ Hc2).
    - apply (contains_quote _ _ Hc1). }
  rewrite Hu. exists u. split; [reflexivity|].
  apply before_first_quote_spec in Hu. destruct Hu as (post & _ & Hq).
  exact Hq.
Qed.

(** The line loop of [parse_ubuntu] never raises: a line that passes the
    test has two double quotes. It keeps the mirrors already collected,
    adds at most one per line, and what it adds contains no double
    quote. *)
Theorem ubuntu_lines_never_raise (lines : list string) :
  forall mirror_list,
  exists urls,
    ubuntu_lines lines mirror_list = Ok (mirror_list ++ urls) /\
    (List.length urls <= List.length lines)%nat /\
    Forall (fun url => no_quote url = true) urls.
Proof.
  induction lines as [|line lines IH]; intros mirror_list; cbn [ubuntu_lines].
  - exists []. rewrite app_nil_r. repeat split; constructor.
  - destruct (ubuntu_line line) as [r|] eqn:E.
    + destruct (ubuntu_line_ok _ _ E) as (url & -> & Hq).
      destruct (IH (mirror_list ++ [url])) as (urls & -> & Hlen & Hall).
      exists (url :: urls). rewrite <- app_assoc. cbn [app List.length].
      split; [reflexivity|]. split; [lia|]. constructor; assumption.
    + destruct (IH mirror_list) as (urls & -> & Hlen & Hall).
      exists urls. cbn [List.length]. split; [reflexivity|].
      split; [lia|exact Hall].
Qed.

Lemma string_app_assoc (a b c : string) :
  ((a ++ b) ++ c)%string = (a ++ b ++ c)%string.
Proof.
  induction a as [|x a IH]; cbn [append].
  - reflexivity.
  - rewrite IH. reflexivity.
Qed.

(** A row of the mirror table gives its URL: for a line whose first
    double quote opens [http://...] and whose next one is followed by
    [>http</a>], the loop appends exactly that URL. *)
Theorem ubuntu_line_extracts_href (pre url post : string) :
  no_quote pre = true ->
  no_quote url = true ->
  ubuntu_line (pre ++ http_quote ++ url ++ http_anchor ++ post)
  = Some (Ok ("http://" ++ url)%string).
Proof.
  intros Hpre Hurl. unfold ubuntu_line.
  rewrite contains_app.
  assert (contains http_anchor (pre ++ http_quote ++ url ++ http_anchor ++ post)
          = true) as ->.
  { replace (pre ++ http_quote ++ url ++ http_anchor ++ post)%string
      with ((pre ++ http_quote ++ url) ++ http_anchor ++ post)%string.
    - apply contains_app.
    - rewrite !string_app_assoc. reflexivity. }
  cbn [andb]. f_equal.
  apply between_quotes_ok.
  exists pre, (">http</a>" ++ post)%string.
  split; [|split; [exact Hpre|]].
  - unfold http_quote, http_anchor. cbn [append]. reflexivity.
  - cbn [append no_quote]. exact Hurl.
Qed.

Lemma ubuntu_line_extracts_href_witness :
  no_quote "<td><a href=" = true /\
  no_quote "archive.ubuntu.com/ubuntu/" = true /\
  ubuntu_line ("<td><a href=" ++ http_quote ++ "archive.ubuntu.com/ubuntu/"
               ++ http_anchor ++ "</td>")
  = Some (Ok "http://archive.ubuntu.com/ubuntu/"%string).
Proof.
  split; [reflexivity|]. split; [reflexivity|].
  apply (ubuntu_line_extracts_href "<td><a href="
           "archive.ubuntu.com/ubuntu/" "</td>"); reflexivity.
Defined.

(** * The collection across runs, in full *)

Lemma recorded_worker_entry (env : net_env) (url : string) :
  worker_entry env url (recorded env url).
Proof.
  unfold worker_entry, recorded, net_select.
  destruct (re_search url) as [d|]; [|reflexivity].
  destruct (ping env d default_timeout 1 []) as [[elapsed|]|e];
    cbn [truthy].
  - destruct (elapsed =? 0); cbn [negb snd netselect_scored empty_state app].
    + reflexivity.
    + eexists. reflexivity.
  - reflexivity.
  - destruct (caught e); reflexivity.
Qed.

Lemma fetch_collection (env_of : string -> net_env) (fetches : Z)
    (netselect : list string) (st : state) :
  1 <= fetches <= 10 ->
  netselect_scored (snd (fetch env_of fetches netselect st))
  = sort (netselect_scored st
          ++ flat_map (fun url => recorded (env_of url) url) netselect) /\
  fst (fetch env_of fetches netselect st)
  = written (select_mirrors 0 fetches
               (netselect_scored (snd (fetch env_of fetches netselect st)))).
Proof.
  intros Hf. unfold fetch.
  assert (((1 <=? fetches) && (fetches <? 11)) = true) as ->.
  { apply andb_true_iff. split; [apply Z.leb_le|apply Z.ltb_lt]; lia. }
  rewrite probe_all_recorded.
  destruct (select_mirrors 0 fetches _) as [mirrors|e] eqn:E;
    cbn [fst snd netselect_scored]; rewrite E; split; reflexivity.
Qed.

(** C9 (as amended): the collection is a module-level list that no run
    empties. A run with a count in 1..10 leaves in it, sorted in
    ascending order, what it held before together with what the workers
    of that run appended: for each mirror, one entry for its URL when
    its host matches the pattern and [ping] returned a non-zero time,
    and nothing otherwise. So the second of two consecutive runs in one
    process starts from the first run's sorted results, keeps every one
    of them, and ranks them together with its own: what it writes is
    selected from the sorted union. *)
Theorem collection_survives_between_runs
    (env1 env2 : string -> net_env) (fetches1 fetches2 : Z)
    (netselect1 netselect2 : list string) (st0 : state) :
  1 <= fetches1 <= 10 ->
  1 <= fetches2 <= 10 ->
  let st1 := snd (fetch env1 fetches1 netselect1 st0) in
  let st2 := snd (fetch env2 fetches2 netselect2 st1) in
  netselect_scored st1
    = sort (netselect_scored st0
            ++ flat_map (fun url => recorded (env1 url) url) netselect1) /\
  netselect_scored st2
    = sort (netselect_scored st1
            ++ flat_map (fun url => recorded (env2 url) url) netselect2) /\
  (forall url, worker_entry (env1 url) url (recorded (env1 url) url)) /\
  (forall url, worker_entry (env2 url) url (recorded (env2 url) url)) /\
  Sorted ascending (netselect_scored st1) /\
  Sorted ascending (netselect_scored st2) /\
  (forall e, In e (netselect_scored st0) -> In e (netselect_scored st1)) /\
  (forall e, In e (netselect_scored st1) -> In e (netselect_scored st2)) /\
  fst (fetch env2 fetches2 netselect2 st1)
    = written (select_mirrors 0 fetches2 (netselect_scored st2)).
Proof.
  intros Hf1 Hf2 st1 st2.
  destruct (fetch_collection env1 fetches1 netselect1 st0 Hf1) as [E1 _].
  destruct (fetch_collection env2 fetches2 netselect2 st1 Hf2) as [E2 W2].
  fold st1 in E1. fold st2 in E2, W2.
  split; [exact E1|]. split; [exact E2|].
  split; [intros url; apply recorded_worker_entry|].
  split; [intros url; apply recorded_worker_entry|].
  split; [rewrite E1; apply sort_sorted|].
  split; [rewrite E2; apply sort_sorted|].
  split; [|split; [|exact W2]].
  - intros e He. rewrite E1.
    apply (Permutation_in _ (Permutation_sym (sort_perm _))).
    apply in_or_app. left. exact He.
  - intros e He. rewrite E2.
    apply (Permutation_in _ (Permutation_sym (sort_perm _))).
    apply in_or_app. left. exact He.
Qed.

Lemma collection_survives_witness :
  1 <= 1 <= 10 /\
  netselect_scored
    (snd (fetch (fun _ => reply_env 50000) 1 ["http://b"%string]
            (snd (fetch (fun _ => reply_env 20000) 1 ["http://a"%string]
                    empty_state))))
  = sort (netselect_scored
            (snd (fetch (fun _ => reply_env 20000) 1 ["http://a"%string]
                    empty_state))
          ++ flat_map (fun url => recorded (reply_env 50000) url)
               ["http://b"%string]).
Proof.
  assert (1 <= 1 <= 10) as H by lia.
  split; [exact H|].
  exact (proj1 (proj2 (collection_survives_between_runs
                         (fun _ => reply_env 20000) (fun _ => reply_env 50000)
                         1 1 ["http://a"%string] ["http://b"%string]
                         empty_state H H))).
Defined.

(** * Where the receive loop stops *)




(** The handling time in that bound is needed: after the deadline
    [select] is called with a time-out of zero and still returns a
    datagram that is already queued. Here the time-out is 10, a stray
    datagram arrives at 5 and takes 7 to handle, and the reply that
    arrived at 12 is then read and reported with a latency of 19. *)
Example queued_reply_is_read_after_the_deadline :
  ping slow_env "m1" 10 1 [] = Ok (Some 19).
Proof. vm_compute. reflexivity. Qed.
